(** * blog-proxy: a caching fetcher behind an allow-list

    Shallow embedding of [main.go]: the in-memory [Cache], the [Storage]
    service with its [Get] operation (allow-list gate, freshness check,
    fetch and populate) and the parsing that the root HTTP handler applies
    to its [url] query parameter.

    Go strings are byte strings and are modelled by [string]; [[]byte] is
    [list byte]; [time.Time] is an integer number of nanoseconds; the map
    types are stdpp's [gmap] and [gset].  The clock and the remote origins
    are an explicit environment, and the effects of a call (clock reads and
    outbound requests) are recorded in a [World] threaded through a small
    state monad.  The [slog] calls produce no value the program reads and
    are left out. *)

From Stdlib Require Import ZArith Strings.String Strings.Ascii Strings.Byte List Lia Bool.
From stdpp Require Import base gmap strings list.

Import ListNotations.
Local Open Scope string_scope.
Local Open Scope list_scope.

(** ** Library functions used by the program *)

(** *** [crypto/md5] and [encoding/hex]

    [md5.New(); hash.Write(content); hash.Sum(nil)] is the MD5 digest of
    [content] (RFC 1321), computed here on 32-bit words held in [Z]. *)

Module MD5.

Local Open Scope Z_scope.

Definition u32 (x : Z) : Z := Z.land x 0xffffffff.

Definition rotl (x c : Z) : Z :=
  u32 (Z.lor (Z.shiftl x c) (Z.shiftr x (32 - c))).

Definition not32 (x : Z) : Z := Z.lxor x 0xffffffff.

Definition K : list Z :=
  [ 0xd76aa478; 0xe8c7b756; 0x242070db; 0xc1bdceee;
    0xf57c0faf; 0x4787c62a; 0xa8304613; 0xfd469501;
    0x698098d8; 0x8b44f7af; 0xffff5bb1; 0x895cd7be;
    0x6b901122; 0xfd987193; 0xa679438e; 0x49b40821;
    0xf61e2562; 0xc040b340; 0x265e5a51; 0xe9b6c7aa;
    0xd62f105d; 0x02441453; 0xd8a1e681; 0xe7d3fbc8;
    0x21e1cde6; 0xc33707d6; 0xf4d50d87; 0x455a14ed;
    0xa9e3e905; 0xfcefa3f8; 0x676f02d9; 0x8d2a4c8a;
    0xfffa3942; 0x8771f681; 0x6d9d6122; 0xfde5380c;
    0xa4beea44; 0x4bdecfa9; 0xf6bb4b60; 0xbebfbc70;
    0x289b7ec6; 0xeaa127fa; 0xd4ef3085; 0x04881d05;
    0xd9d4d039; 0xe6db99e5; 0x1fa27cf8; 0xc4ac5665;
    0xf4292244; 0x432aff97; 0xab9423a7; 0xfc93a039;
    0x655b59c3; 0x8f0ccc92; 0xffeff47d; 0x85845dd1;
    0x6fa87e4f; 0xfe2ce6e0; 0xa3014314; 0x4e0811a1;
    0xf7537e82; 0xbd3af235; 0x2ad7d2bb; 0xeb86d391 ].

Definition S : list Z :=
  [ 7; 12; 17; 22; 7; 12; 17; 22; 7; 12; 17; 22; 7; 12; 17; 22;
    5;  9; 14; 20; 5;  9; 14; 20; 5;  9; 14; 20; 5;  9; 14; 20;
    4; 11; 16; 23; 4; 11; 16; 23; 4; 11; 16; 23; 4; 11; 16; 23;
    6; 10; 15; 21; 6; 10; 15; 21; 6; 10; 15; 21; 6; 10; 15; 21 ].

(** The four chaining words. *)
Record digest := Digest { dA : Z; dB : Z; dC : Z; dD : Z }.

Definition init : digest :=
  Digest 0x67452301 0xefcdab89 0x98badcfe 0x10325476.

(** Step [i] (0..63) of the compression function on the block [M] of
    sixteen words. *)
Definition step (M : list Z) (st : digest) (i : nat) : digest :=
  let '(Digest a b c d) := st in
  let zi := Z.of_nat i in
  let '(f, g) :=
    if zi <? 16 then (Z.lor (Z.land b c) (Z.land (not32 b) d), zi)
    else if zi <? 32 then
      (Z.lor (Z.land d b) (Z.land (not32 d) c), (5 * zi + 1) mod 16)
    else if zi <? 48 then (Z.lxor (Z.lxor b c) d, (3 * zi + 5) mod 16)
    else (Z.lxor c (Z.lor b (not32 d)), (7 * zi) mod 16) in
  let f' := u32 (f + a + nth i K 0 + nth (Z.to_nat g) M 0) in
  Digest d (u32 (b + rotl f' (nth i S 0))) b c.

(** Four bytes, least significant first, as one word. *)
Definition le32 (bs : list Z) : Z :=
  nth 0 bs 0 + Z.shiftl (nth 1 bs 0) 8 + Z.shiftl (nth 2 bs 0) 16
  + Z.shiftl (nth 3 bs 0) 24.

Fixpoint words (n : nat) (bs : list Z) : list Z :=
  match n with
  | O => []
  | Datatypes.S n' => le32 (firstn 4 bs) :: words n' (skipn 4 bs)
  end.

Definition block (st : digest) (bs : list Z) : digest :=
  let M := words 16 bs in
  let '(Digest a b c d) := fold_left (step M) (seq 0 64) st in
  Digest (u32 (dA st + a)) (u32 (dB st + b)) (u32 (dC st + c))
         (u32 (dD st + d)).

Fixpoint blocks (n : nat) (st : digest) (bs : list Z) : digest :=
  match n with
  | O => st
  | Datatypes.S n' => blocks n' (block st (firstn 64 bs)) (skipn 64 bs)
  end.

(** [n] as [k] bytes, least significant first. *)
Fixpoint le_bytes (k : nat) (n : Z) : list Z :=
  match k with
  | O => []
  | Datatypes.S k' => n mod 256 :: le_bytes k' (n / 256)
  end.

(** The message followed by 0x80, zeros up to 56 modulo 64, and the bit
    length on eight bytes. *)
Definition pad (bs : list Z) : list Z :=
  let len := Z.of_nat (length bs) in
  let zeros := Z.to_nat ((55 - len) mod 64) in
  bs ++ [0x80] ++ repeat 0 zeros ++ le_bytes 8 ((8 * len) mod 2 ^ 64).

Definition byte_of_Z (z : Z) : byte :=
  match Byte.of_N (Z.to_N (z mod 256)) with
  | Some b => b
  | None => x00
  end.

Definition Z_of_byte (b : byte) : Z := Z.of_N (Byte.to_N b).

(** The sixteen bytes of [hash.Sum(nil)]. *)
Definition Sum (content : list byte) : list byte :=
  let p := pad (map Z_of_byte content) in
  let '(Digest a b c d) := blocks (Nat.div (length p) 64) init p in
  map byte_of_Z (le_bytes 4 a ++ le_bytes 4 b ++ le_bytes 4 c ++ le_bytes 4 d).

End MD5.

Module Hex.

Definition hextable : string := "0123456789abcdef".

Definition digit (n : N) : ascii :=
  match String.get (N.to_nat n) hextable with
  | Some c => c
  | None => "0"%char
  end.

(** [hex.EncodeToString]: two lower-case digits per byte, high nibble
    first. *)
Fixpoint EncodeToString (src : list byte) : string :=
  match src with
  | [] => ""
  | v :: rest =>
      let n := Byte.to_N v in
      String (digit (N.shiftr n 4))
        (String (digit (N.land n 15)) (EncodeToString rest))
  end.

End Hex.

(** The bytes of a string, for writing byte slices as text. *)
Fixpoint bytes_of_string (s : string) : list byte :=
  match s with
  | EmptyString => []
  | String c r => byte_of_ascii c :: bytes_of_string r
  end.

(** *** [strings]

    Go's functions work on bytes here: every separator and cutset the
    program passes is the single ASCII byte "/". *)

Module strings.

(** [s[n:]], the whole of [s] dropped when [n] exceeds its length. *)
Fixpoint drop (n : nat) (s : string) : string :=
  match n, s with
  | O, _ => s
  | S n', String _ r => drop n' r
  | S _, EmptyString => EmptyString
  end.

(** [s[:n]]. *)
Fixpoint take (n : nat) (s : string) : string :=
  match n, s with
  | S n', String c r => String c (take n' r)
  | _, _ => EmptyString
  end.

Definition HasPrefix (s prefix : string) : bool := String.prefix prefix s.

Definition TrimPrefix (s prefix : string) : string :=
  if HasPrefix s prefix then drop (String.length prefix) s else s.

Fixpoint ContainsByte (cutset : string) (c : ascii) : bool :=
  match cutset with
  | EmptyString => false
  | String d r => Ascii.eqb c d || ContainsByte r c
  end.

(** [TrimRight(s, cutset)]: [s] without its longest suffix made of bytes
    of [cutset]. *)
Fixpoint TrimRight (s cutset : string) : string :=
  match s with
  | EmptyString => EmptyString
  | String c r =>
      match TrimRight r cutset with
      | EmptyString =>
          if ContainsByte cutset c then EmptyString else String c EmptyString
      | r' => String c r'
      end
  end.

(** [Index(s, sep)]: the position of the first occurrence of [sep] in
    [s]; [None] stands for Go's -1. *)
Fixpoint Index (s sep : string) : option nat :=
  if String.prefix sep s then Some O
  else match s with
       | EmptyString => None
       | String _ r => option_map S (Index r sep)
       end.

(** The loop of [genSplit]: at most [cuts] cuts, the rest of [s] last. *)
Fixpoint genSplit (s sep : string) (cuts : nat) : list string :=
  match cuts with
  | O => [s]
  | S cuts' =>
      match Index s sep with
      | None => [s]
      | Some m =>
          take m s :: genSplit (drop (m + String.length sep) s) sep cuts'
      end
  end.

(** [SplitN(s, sep, n)] for a non-empty [sep] and [n >= 0]: no piece when
    [n] is 0, otherwise at most [n] pieces. *)
Definition SplitN (s sep : string) (n : nat) : list string :=
  match n with
  | O => []
  | S cuts => genSplit s sep cuts
  end.

End strings.

(** *** [time]

    A [time.Time] is a number of nanoseconds; the zero [Time] is 0.  Every
    [Time] the program compares comes from [time.Now()], whose readings Go
    compares on the monotonic clock. *)

Module time.

Local Open Scope Z_scope.

Abbreviation Time := Z (only parsing).
Abbreviation Duration := Z (only parsing).

Definition Nanosecond : Duration := 1.
Definition Second : Duration := 1000000000 * Nanosecond.
Definition Hour : Duration := 3600 * Second.

Definition Add (t : Time) (d : Duration) : Time := t + d.

(** [t.After(u)]. *)
Definition After (t u : Time) : bool := u <? t.

End time.

(** *** [net/http], client side

    What one [http.Get] delivers.  [Body] is what [io.ReadAll(resp.Body)]
    returns: the bytes, or [None] when reading fails.  [Header] maps a
    canonical header name to its values. *)

Record Response := {
  StatusCode : Z;
  Header : gmap string (list string);
  Body : option (list byte);
}.

(** [Header.Get(key)]: the first value of [key], the empty string when
    there is none. *)
Definition Header_Get (h : gmap string (list string)) (key : string) : string :=
  match h !! key with
  | Some (v :: _) => v
  | _ => ""
  end.

(** ** The program *)

Record Object := {
  Etag : string;
  ContentType : string;
  Content : list byte;
  UpdateTime : time.Time;
  ExpiryTime : time.Time;
}.

(** [Object{}] *)
Definition Object_zero : Object :=
  {| Etag := ""; ContentType := ""; Content := [];
     UpdateTime := 0%Z; ExpiryTime := 0%Z |}.

(** [type Cache map[string]map[string]Object].  The program only ever
    holds the map that [NewStorage] makes, never a nil one. *)
Module Cache.

Abbreviation t := (gmap string (gmap string Object)).

Definition Get (c : t) (hostName pageName : string) : Object * bool :=
  match c !! hostName with
  | None => (Object_zero, false)
  | Some host =>
      match host !! pageName with
      | Some obj => (obj, true)
      | None => (Object_zero, false)
      end
  end.

Definition Put (c : t) (hostName pageName : string) (obj : Object) : t :=
  let host :=
    match c !! hostName with
    | Some host => host
    | None => ∅
    end in
  <[hostName := <[pageName := obj]> host]> c.

End Cache.

(** *** The environment and the effects of a call

    [clock n] is the reading of the [n]-th call of [time.Now()];
    [origin n url] is what the [n]-th outbound [http.Get] returns for
    [url], [None] standing for a non-nil error. *)

Record Env := {
  clock : nat -> time.Time;
  origin : nat -> string -> option Response;
}.

(** What has happened so far: the number of clock reads and the URLs
    requested, oldest first. *)
Record World := {
  ticks : nat;
  requests : list string;
}.

Definition IO (A : Type) : Type := World -> A * World.

Definition ret {A} (a : A) : IO A := fun w => (a, w).

Definition bind {A B} (m : IO A) (k : A -> IO B) : IO B :=
  fun w => let (a, w') := m w in k a w'.

Notation "x <- m ;; k" := (bind m (fun x => k))
  (at level 100, m at next level, right associativity).

(** The world after one more clock read, and after one more request. *)
Definition tick (w : World) : World :=
  {| ticks := S (ticks w); requests := requests w |}.

Definition sent (url : string) (w : World) : World :=
  {| ticks := ticks w; requests := requests w ++ [url] |}.

Definition time_Now (E : Env) : IO time.Time :=
  fun w => (clock E (ticks w), tick w).

Definition http_Get (E : Env) (url : string) : IO (option Response) :=
  fun w => (origin E (length (requests w)) url, sent url w).

(** A Go [error]: [None] is nil, [Some msg] the error made by
    [fmt.Errorf(msg)]. *)
Abbreviation error := (option string) (only parsing).

Definition Errorf (msg : string) : error := Some msg.

Module Storage.

Record t := {
  allowed : gset string;
  cache : Cache.t;
}.

Definition NewStorage : t :=
  {| allowed := {[ "https://paulgraham.com" ]}; cache := ∅ |}.

Section Get.

Variable E : Env.

(** [Get] returns the storage as the call leaves it, then Go's pair
    [(obj, err)]. *)
Definition Get (s : t) (hostName pageName : string)
  : IO (t * (Object * error)) :=
  if String.eqb hostName "" then
    ret (s, (Object_zero, Errorf "host name is empty"))
  else if String.eqb pageName "" then
    ret (s, (Object_zero, Errorf "page name is empty"))
  else if negb (bool_decide (hostName ∈ allowed s)) then
    ret (s, (Object_zero, Errorf "host not allowed"))
  else
    let '(obj, ok) := Cache.Get (cache s) hostName pageName in
    (* [ok && obj.ExpiryTime.After(time.Now())]: the clock is read only
       when [ok] holds *)
    hit <- (if ok then
              now <- time_Now E ;; ret (time.After (ExpiryTime obj) now)
            else ret false) ;;
    if (hit : bool) then ret (s, (obj, None))
    else
      let url := hostName +:+ "/" +:+ pageName in
      r <- http_Get E url ;;
      match r with
      | None => ret (s, (Object_zero, Errorf "failed to get object"))
      | Some resp =>
          match Body resp with
          | None => ret (s, (Object_zero, Errorf "failed to read object"))
          | Some content =>
              let attrs := Header resp in
              let etag := Hex.EncodeToString (MD5.Sum content) in
              updateTime <- time_Now E ;;
              expiryBase <- time_Now E ;;
              let obj :=
                {| Etag := etag;
                   ContentType := Header_Get attrs "Content-Type";
                   Content := content;
                   UpdateTime := updateTime;
                   ExpiryTime := time.Add expiryBase (24 * time.Hour) |} in
              ret ({| allowed := allowed s;
                      cache := Cache.Put (cache s) hostName pageName obj |},
                   (obj, None))
          end
      end.

(** The calls of a sequence of requests, one after the other, on the
    storage the previous one left. *)
Fixpoint GetAll (s : t) (reqs : list (string * string))
  : IO (t * list (Object * error)) :=
  match reqs with
  | [] => ret (s, [])
  | (hostName, pageName) :: rest =>
      r <- Get s hostName pageName ;;
      rs <- GetAll (fst r) rest ;;
      ret (fst rs, snd r :: snd rs)
  end.

End Get.

End Storage.

(** *** The handler of [GET /] *)

(** What the handler answers: [http.NotFound], or the headers it sets and
    the arguments it gives to [http.ServeContent]. *)
Inductive Reply :=
| NotFound
| ServeContent (headers : list (string * string)) (name : string)
    (modtime : time.Time) (content : list byte).

(** Lines 148 to 159: [prefix], and [url] without it. *)
Definition scheme_split (url : string) : string * string :=
  if strings.HasPrefix url "https://" then
    ("https://", strings.TrimPrefix url "https://")
  else if strings.HasPrefix url "http://" then
    ("http://", strings.TrimPrefix url "http://")
  else ("httpd://", url).

(** Line 161: the segments of the [url] parameter once its scheme is
    removed. *)
Definition pathSegments (url : string) : list string :=
  strings.SplitN (strings.TrimRight url "/") "/" 2.

(** Lines 147 to 171: from the [url] parameter to the [hostName] and
    [pageName] given to [Storage.Get]; [None] when the handler answers
    [http.NotFound] for want of two path segments. *)
Definition target (url : string) : option (string * string) :=
  let '(prefix, url) := scheme_split url in
  match pathSegments url with
  | [hostName; pageName] => Some (prefix +:+ hostName, pageName)
  | _ => None
  end.

Definition handler (E : Env) (s : Storage.t) (url : string)
  : IO (Storage.t * Reply) :=
  match target url with
  | None => ret (s, NotFound)
  | Some (hostName, pageName) =>
      r <- Storage.Get E s hostName pageName ;;
      let '(s', (obj, err)) := r in
      match err with
      | Some _ => ret (s', NotFound)
      | None =>
          ret (s', ServeContent
                     [ ("Content-Type", ContentType obj);
                       ("ETag", Etag obj);
                       ("Access-Control-Allow-Origin", "*");
                       ("Access-Control-Allow-Methods", "GET, OPTIONS") ]
                     pageName (UpdateTime obj) (Content obj))
      end
  end.

(** ** The vocabulary of the specification *)

(** The three error kinds under which the specification files the five
    errors of [Storage.Get]. *)
Inductive ErrorKind := InvalidInput | OriginNotAllowed | FetchFailed.

Definition kind_of (msg : string) : option ErrorKind :=
  if String.eqb msg "host name is empty" then Some InvalidInput
  else if String.eqb msg "page name is empty" then Some InvalidInput
  else if String.eqb msg "host not allowed" then Some OriginNotAllowed
  else if String.eqb msg "failed to get object" then Some FetchFailed
  else if String.eqb msg "failed to read object" then Some FetchFailed
  else None.

(** [fails r k]: the call returned a non-nil error of kind [k]. *)
Definition fails (r : Object * error) (k : ErrorKind) : Prop :=
  exists msg, snd r = Some msg /\ kind_of msg = Some k.

(** TTL of the specification. *)
Definition TTL : time.Duration := (24 * time.Hour)%Z.

(** An entry for [(h, p)] that has not expired at the next clock read. *)
Definition fresh (E : Env) (s : Storage.t) (h p : string) (w : World) : Prop :=
  exists obj, Cache.Get (Storage.cache s) h p = (obj, true)
              /\ (clock E (ticks w) < ExpiryTime obj)%Z.

(** The call passes validation and finds no fresh entry. *)
Definition reaches_fetch (E : Env) (s : Storage.t) (h p : string) (w : World)
  : Prop :=
  h <> "" /\ p <> "" /\ h ∈ Storage.allowed s /\ ~ fresh E s h p w.

(** The world once the freshness test is over: the clock was read only if
    the cache had an entry. *)
Definition checked (s : Storage.t) (h p : string) (w : World) : World :=
  if snd (Cache.Get (Storage.cache s) h p) then tick w else w.

(** The object that lines 113 to 123 build from the body [content] of
    [resp] when the world is [w1]. *)
Definition built (E : Env) (content : list byte) (resp : Response)
    (w1 : World) : Object :=
  {| Etag := Hex.EncodeToString (MD5.Sum content);
     ContentType := Header_Get (Header resp) "Content-Type";
     Content := content;
     UpdateTime := clock E (ticks w1);
     ExpiryTime := time.Add (clock E (S (ticks w1))) (24 * time.Hour) |}.

(** The clock never goes back. *)
Definition monotone (E : Env) : Prop :=
  forall m n, m <= n -> (clock E m <= clock E n)%Z.

(** The two stamps of an object built by a fetch: two consecutive clock
    reads, the second one pushed by [TTL]. *)
Definition stamped (E : Env) (o : Object) : Prop :=
  exists k, UpdateTime o = clock E k
            /\ ExpiryTime o = (clock E (S k) + TTL)%Z.

(** Every object of the cache carries the stamps of a fetch. *)
Definition cache_stamped (E : Env) (c : Cache.t) : Prop :=
  forall h p o, Cache.Get c h p = (o, true) -> stamped E o.

(** [n] times "/". *)
Fixpoint slashes (n : nat) : string :=
  match n with
  | O => ""
  | S n' => String "/" (slashes n')
  end.

(** No "/" anywhere in [s]. *)
Definition no_slash (s : string) : Prop :=
  forall a b, s <> a +:+ "/" +:+ b.

(** The last byte of [s] is "/". *)
Fixpoint ends_with_slash (s : string) : bool :=
  match s with
  | EmptyString => false
  | String c EmptyString => Ascii.eqb c "/"
  | String _ r => ends_with_slash r
  end.

(** The specification's parse of a remainder [t] under scheme [scheme]:
    host and path around the first "/" of [t], nothing when [t] has no
    "/". *)
Definition split_at_first_slash (scheme t : string)
    (r : option (string * string)) : Prop :=
  (no_slash t /\ r = None)
  \/ (exists host path, no_slash host /\ t = host +:+ "/" +:+ path
                        /\ r = Some (scheme +:+ host, path)).

(** Every object of the cache carries the digest of its own content. *)
Definition cache_tagged (c : Cache.t) : Prop :=
  forall h p o, Cache.Get c h p = (o, true) ->
                Etag o = Hex.EncodeToString (MD5.Sum (Content o)).

(** Every key of the cache passed the validation of [Storage.Get]. *)
Definition cache_keys_valid (s : Storage.t) : Prop :=
  forall h p o, Cache.Get (Storage.cache s) h p = (o, true) ->
                h <> "" /\ p <> "" /\ h ∈ Storage.allowed s.


(** A sequence of [Cache.Put], in order. *)
Definition PutAll (c : Cache.t) (l : list (string * string * Object))
  : Cache.t :=
  fold_left (fun c '(h, p, o) => Cache.Put c h p o) l c.

(** The object that the last entry of [l] for the key [(h, p)] carries. *)
Fixpoint last_put (l : list (string * string * Object)) (h p : string)
  : option Object :=
  match l with
  | [] => None
  | (h', p', o) :: rest =>
      match last_put rest h p with
      | Some o' => Some o'
      | None => if decide ((h', p') = (h, p)) then Some o else None
      end
  end.

(** One of the sixteen digits of [Hex.hextable]. *)
Definition is_hex_digit (c : ascii) : bool :=
  strings.ContainsByte Hex.hextable c.

(** ** Sample environments *)

Module Demo.

Definition host : string := "https://paulgraham.com".
Definition page : string := "index.html".

Definition w0 : World := {| ticks := 0; requests := [] |}.

(** Three clock reads 40 ns apart, then one read every two days. *)
Definition readings (n : nat) : time.Time :=
  if (n <? 3)%nat then (40 * Z.of_nat n)%Z
  else (40 * Z.of_nat n + (Z.of_nat n - 2) * (48 * time.Hour))%Z.

Definition found : Response :=
  {| StatusCode := 200;
     Header := {[ "Content-Type" := ["text/html"] ]};
     Body := Some (bytes_of_string "hello") |}.

Definition missing : Response :=
  {| StatusCode := 404;
     Header := {[ "Content-Type" := ["text/plain"] ]};
     Body := Some (bytes_of_string "not found") |}.

Definition truncated : Response :=
  {| StatusCode := 200; Header := ∅; Body := None |}.

Definition E_found : Env :=
  {| clock := readings; origin := fun _ _ => Some found |}.
Definition E_missing : Env :=
  {| clock := readings; origin := fun _ _ => Some missing |}.
Definition E_truncated : Env :=
  {| clock := readings; origin := fun _ _ => Some truncated |}.
Definition E_down : Env :=
  {| clock := readings; origin := fun _ _ => None |}.

(** The origin answers, and every clock read gives the instant at which
    the entry of [warm] expires. *)
Definition E_at_expiry : Env :=
  {| clock := fun _ => (40 + 24 * time.Hour)%Z;
     origin := fun _ _ => Some found |}.

(** The storage after one successful fetch of [page] under [E_found]. *)
Definition warm : Storage.t :=
  fst (fst (Storage.Get E_found Storage.NewStorage host page w0)).

End Demo.

(** * Properties *)

(** ** The digest on known inputs *)

Example md5_empty :
  Hex.EncodeToString (MD5.Sum []) = "d41d8cd98f00b204e9800998ecf8427e".
Proof. vm_compute. reflexivity. Qed.

Example md5_abc :
  Hex.EncodeToString (MD5.Sum (bytes_of_string "abc"))
  = "900150983cd24fb0d6963f7d28e17f72".
Proof. vm_compute. reflexivity. Qed.

Example md5_55 :
  Hex.EncodeToString (MD5.Sum (repeat "x"%byte 55))
  = "04364420e25c512fd958a70738aa8f72".
Proof. vm_compute. reflexivity. Qed.

Example md5_56 :
  Hex.EncodeToString (MD5.Sum (repeat "x"%byte 56))
  = "668a72d5ba17f08e62dabcafad6db14b".
Proof. vm_compute. reflexivity. Qed.

Example md5_64 :
  Hex.EncodeToString (MD5.Sum (repeat "x"%byte 64))
  = "c1bb4f81d892b2d57947682aeb252456".
Proof. vm_compute. reflexivity. Qed.

(** ** Cache *)

Section CacheLaws.

Implicit Types (c : Cache.t) (h p : string) (obj : Object).

Lemma Cache_Get_Put_eq c h p obj :
  Cache.Get (Cache.Put c h p obj) h p = (obj, true).
Proof.
  unfold Cache.Get, Cache.Put.
  by rewrite !lookup_insert_eq.
Qed.

Lemma Cache_Get_Put_other_host c h p obj h' p' :
  h' <> h -> Cache.Get (Cache.Put c h p obj) h' p' = Cache.Get c h' p'.
Proof.
  intros Hne. unfold Cache.Get, Cache.Put.
  by rewrite lookup_insert_ne.
Qed.

Lemma Cache_Get_Put_other_page c h p obj p' :
  p' <> p -> Cache.Get (Cache.Put c h p obj) h p' = Cache.Get c h p'.
Proof.
  intros Hne. unfold Cache.Get, Cache.Put.
  rewrite lookup_insert_eq.
  destruct (c !! h) as [host|]; rewrite lookup_insert_ne; try done.
Qed.

Lemma Cache_Get_Put_ne c h p obj h' p' :
  (h', p') <> (h, p) ->
  Cache.Get (Cache.Put c h p obj) h' p' = Cache.Get c h' p'.
Proof.
  intros Hne. destruct (decide (h' = h)) as [->|Hh].
  - apply Cache_Get_Put_other_page. congruence.
  - by apply Cache_Get_Put_other_host.
Qed.

(** Whatever [Get] finds was put there: a found object is in the inner
    map of its host. *)
Lemma Cache_Get_found c h p obj :
  Cache.Get c h p = (obj, true) <->
  exists host, c !! h = Some host /\ host !! p = Some obj.
Proof.
  unfold Cache.Get. split.
  - destruct (c !! h) as [host|]; [|discriminate].
    destruct (host !! p) as [o|] eqn:Hp; [|discriminate].
    intros [= ->]. eauto.
  - intros (host & -> & ->). done.
Qed.

End CacheLaws.

(** ** Storage.Get *)

Section GetFacts.

Variable E : Env.

Implicit Types (s : Storage.t) (h p : string) (w : World) (obj : Object).

Lemma Get_empty_host s p w :
  Storage.Get E s "" p w = (s, (Object_zero, Some "host name is empty"), w).
Proof. reflexivity. Qed.

Lemma Get_empty_page s h w :
  h <> "" ->
  Storage.Get E s h "" w = (s, (Object_zero, Some "page name is empty"), w).
Proof.
  intros Hh. unfold Storage.Get.
  apply String.eqb_neq in Hh. by rewrite Hh.
Qed.

Lemma Get_rejected s h p w :
  h <> "" -> p <> "" -> h ∉ Storage.allowed s ->
  Storage.Get E s h p w = (s, (Object_zero, Some "host not allowed"), w).
Proof.
  intros Hh Hp Hna. unfold Storage.Get.
  apply String.eqb_neq in Hh, Hp. rewrite Hh, Hp.
  by rewrite bool_decide_false.
Qed.

Lemma Get_hit s h p w obj :
  h <> "" -> p <> "" -> h ∈ Storage.allowed s ->
  Cache.Get (Storage.cache s) h p = (obj, true) ->
  (clock E (ticks w) < ExpiryTime obj)%Z ->
  Storage.Get E s h p w = (s, (obj, None), tick w).
Proof.
  intros Hh Hp Hin Hget Hlt. unfold Storage.Get.
  apply String.eqb_neq in Hh, Hp. rewrite Hh, Hp.
  rewrite bool_decide_true by done. cbn [negb].
  rewrite Hget. unfold bind, time_Now, ret, time.After.
  apply Z.ltb_lt in Hlt. by rewrite Hlt.
Qed.

(** The call on the fetch path, as one equation. *)
Lemma Get_fetch s h p w :
  reaches_fetch E s h p w ->
  let w1 := checked s h p w in
  let url := h +:+ "/" +:+ p in
  Storage.Get E s h p w =
  match origin E (length (requests w)) url with
  | None => (s, (Object_zero, Some "failed to get object"), sent url w1)
  | Some resp =>
      match Body resp with
      | None => (s, (Object_zero, Some "failed to read object"), sent url w1)
      | Some content =>
          let obj := built E content resp w1 in
          ({| Storage.allowed := Storage.allowed s;
              Storage.cache := Cache.Put (Storage.cache s) h p obj |},
           (obj, None), tick (tick (sent url w1)))
      end
  end.
Proof.
  intros (Hh & Hp & Hin & Hstale). unfold Storage.Get, checked.
  apply String.eqb_neq in Hh, Hp. rewrite Hh, Hp.
  rewrite bool_decide_true by done. cbn [negb].
  destruct (Cache.Get (Storage.cache s) h p) as [obj ok] eqn:Hget.
  assert (Hmiss :
    (if ok then now <- time_Now E ;; ret (time.After (ExpiryTime obj) now)
     else ret false) w = (false, if ok then tick w else w)).
  { destruct ok; [|done].
    unfold bind, time_Now, ret, time.After.
    destruct (Z.ltb_spec (clock E (ticks w)) (ExpiryTime obj)) as [Hlt|]; [|done].
    destruct Hstale. exists obj. by rewrite Hget. }
  unfold bind at 1. rewrite Hmiss. cbn [snd].
  unfold bind, http_Get, time_Now, ret.
  assert (Hreq : requests (if ok then tick w else w) = requests w)
    by (by destruct ok).
  rewrite Hreq.
  destruct (origin E _ _) as [resp|]; [|done].
  destruct (Body resp) as [content|]; done.
Qed.

(** The three ways a call can go. *)
Lemma Get_cases s h p w :
  (exists msg, Storage.Get E s h p w = (s, (Object_zero, Some msg), w)
               /\ ~ reaches_fetch E s h p w)
  \/ (exists obj, Cache.Get (Storage.cache s) h p = (obj, true)
                  /\ Storage.Get E s h p w = (s, (obj, None), tick w)
                  /\ ~ reaches_fetch E s h p w)
  \/ reaches_fetch E s h p w.
Proof.
  destruct (decide (h = "")) as [->|Hh].
  { left. eexists. rewrite Get_empty_host. split; [done|]. by intros (? & _). }
  destruct (decide (p = "")) as [->|Hp].
  { left. eexists. rewrite Get_empty_page by done. split; [done|].
    by intros (_ & ? & _). }
  destruct (decide (h ∈ Storage.allowed s)) as [Hin|Hout].
  2:{ left. eexists. rewrite Get_rejected by done. split; [done|].
      by intros (_ & _ & ? & _). }
  destruct (Cache.Get (Storage.cache s) h p) as [obj ok] eqn:Hget.
  destruct ok.
  - destruct (Z.ltb_spec (clock E (ticks w)) (ExpiryTime obj)) as [Hlt|Hge].
    + right. left. exists obj. rewrite (Get_hit s h p w obj) by done.
      repeat split. intros (_ & _ & _ & Hst). apply Hst. by exists obj.
    + right. right. repeat split; try done. intros (o & Ho & Hlt).
      rewrite Hget in Ho. injection Ho as <-. lia.
  - right. right. repeat split; try done. intros (o & Ho & _).
    rewrite Hget in Ho. discriminate.
Qed.

(** A call asks the origin exactly when it is on the fetch path, and then
    only once. *)
Lemma Get_requests s h p w :
  (reaches_fetch E s h p w /\
   requests (snd (Storage.Get E s h p w)) = requests w ++ [h +:+ "/" +:+ p])
  \/ (~ reaches_fetch E s h p w /\
      requests (snd (Storage.Get E s h p w)) = requests w /\
      fst (fst (Storage.Get E s h p w)) = s).
Proof.
  destruct (Get_cases s h p w)
    as [(msg & -> & Hn) | [(obj & _ & -> & Hn) | Hr]]; [by right..|].
  left. split; [done|]. rewrite Get_fetch by done.
  assert (Hreq : requests (checked s h p w) = requests w).
  { unfold checked. by destruct (snd _). }
  destruct (origin E _ _) as [resp|]; [|by cbn; rewrite Hreq].
  destruct (Body resp); by cbn; rewrite Hreq.
Qed.

(** A successful call that asked the origin returns the object built from
    the body the origin delivered. *)
Lemma Get_fetched s s' h p w w' obj :
  Storage.Get E s h p w = (s', (obj, None), w') ->
  requests w' <> requests w ->
  reaches_fetch E s h p w
  /\ exists resp content,
       origin E (length (requests w)) (h +:+ "/" +:+ p) = Some resp
       /\ Body resp = Some content
       /\ obj = built E content resp (checked s h p w)
       /\ Storage.cache s' = Cache.Put (Storage.cache s) h p obj
       /\ Storage.allowed s' = Storage.allowed s.
Proof.
  intros HG Hreq.
  destruct (Get_requests s h p w) as [[Hr _] | (_ & Hsame & _)].
  2:{ rewrite HG in Hsame. done. }
  split; [done|]. rewrite Get_fetch in HG by done.
  destruct (origin E _ _) as [resp|] eqn:Ho; [|discriminate].
  destruct (Body resp) as [content|] eqn:Hb; [|discriminate].
  injection HG as <- <- <-. exists resp, content. repeat split; done.
Qed.

Lemma Get_allowed s h p w :
  Storage.allowed (fst (fst (Storage.Get E s h p w))) = Storage.allowed s.
Proof.
  destruct (Get_requests s h p w) as [[Hr _] | (_ & _ & ->)]; [|done].
  rewrite Get_fetch by done.
  destruct (origin E _ _) as [resp|]; [|done].
  destruct (Body resp); done.
Qed.

(** Objects built by a fetch are [stamped], so a call keeps the cache
    [cache_stamped] and a successful call returns a [stamped] object. *)
Lemma Get_stamped s h p w :
  cache_stamped E (Storage.cache s) ->
  cache_stamped E (Storage.cache (fst (fst (Storage.Get E s h p w))))
  /\ (snd (snd (fst (Storage.Get E s h p w))) = None ->
      stamped E (fst (snd (fst (Storage.Get E s h p w))))).
Proof.
  intros Hinv.
  destruct (Get_cases s h p w)
    as [(msg & -> & _) | [(obj & Hget & -> & _) | Hr]].
  - split; [done|]. discriminate.
  - split; [done|]. intros _. by apply (Hinv h p).
  - rewrite Get_fetch by done.
    destruct (origin E _ _) as [resp|]; [|split; [done|discriminate]].
    destruct (Body resp) as [content|]; [|split; [done|discriminate]].
    cbn [fst snd Storage.cache].
    assert (Hst : stamped E (built E content resp (checked s h p w))).
    { exists (ticks (checked s h p w)). split; reflexivity. }
    split; [|done].
    intros h' p' o Hget.
    destruct (decide ((h', p') = (h, p))) as [[= -> ->]|Hne].
    + rewrite Cache_Get_Put_eq in Hget. by injection Hget as <-.
    + rewrite Cache_Get_Put_ne in Hget by done. by apply (Hinv h' p').
Qed.

Lemma GetAll_cons s h p rest w :
  Storage.GetAll E s ((h, p) :: rest) w =
  let '(r, w1) := Storage.Get E s h p w in
  let '(rs, w2) := Storage.GetAll E (fst r) rest w1 in
  ((fst rs, snd r :: snd rs), w2).
Proof.
  cbn [Storage.GetAll]. unfold bind.
  destruct (Storage.Get E s h p w) as [r w1].
  by destruct (Storage.GetAll E (fst r) rest w1).
Qed.

Lemma GetAll_stamped reqs : forall s w,
  cache_stamped E (Storage.cache s) ->
  cache_stamped E (Storage.cache (fst (fst (Storage.GetAll E s reqs w))))
  /\ Forall (fun r : Object * option string =>
               snd r = None -> stamped E (fst r))
       (snd (fst (Storage.GetAll E s reqs w))).
Proof.
  induction reqs as [|[h p] rest IH]; intros s w Hinv.
  - split; [done|]. constructor.
  - rewrite GetAll_cons.
    destruct (Get_stamped s h p w Hinv) as [Hinv1 Hobj].
    destruct (Storage.Get E s h p w) as [r w1]. cbn [fst snd] in *.
    destruct (IH (fst r) w1 Hinv1) as [Hinv2 Hall].
    destruct (Storage.GetAll E (fst r) rest w1) as [rs w2].
    cbn [fst snd ret] in *. split; [done|]. by constructor.
Qed.

End GetFacts.

(** ** Strings *)

Section StringFacts.

Implicit Types (s t host path : string) (c : ascii).

Lemma prefix_nil s : String.prefix "" s = true.
Proof. by destruct s. Qed.

Lemma prefix_cons a b s t :
  String.prefix (String a s) (String b t)
  = if ascii_dec a b then String.prefix s t else false.
Proof. reflexivity. Qed.

Lemma prefix_app t s : String.prefix t (t +:+ s) = true.
Proof.
  induction t as [|c t IH].
  - apply prefix_nil.
  - change (String c t +:+ s) with (String c (t +:+ s)).
    rewrite prefix_cons. by destruct (ascii_dec c c).
Qed.

Lemma prefix_slash s :
  String.prefix "/" s = true <-> exists r, s = String "/" r.
Proof.
  destruct s as [|c r].
  - split; [discriminate|]. by intros (r & ?).
  - rewrite prefix_cons. destruct (ascii_dec "/" c) as [<-|Hne].
    + rewrite prefix_nil. split; eauto.
    + split; [discriminate|]. intros (r' & [= Hc _]). by subst.
Qed.

Lemma append_nil_l s : "" +:+ s = s.
Proof. reflexivity. Qed.

Lemma append_cons c s t : String c s +:+ t = String c (s +:+ t).
Proof. reflexivity. Qed.

Lemma drop_app t s : strings.drop (String.length t) (t +:+ s) = s.
Proof.
  induction t as [|c t IH]; [by destruct s|].
  rewrite append_cons. simpl. exact IH.
Qed.

Lemma take_app t s : strings.take (String.length t) (t +:+ s) = t.
Proof.
  induction t as [|c t IH]; [by destruct s|].
  rewrite append_cons. simpl. by rewrite IH.
Qed.

Lemma append_assoc s t u : (s +:+ t) +:+ u = s +:+ (t +:+ u).
Proof.
  induction s as [|c s IH]; [done|].
  rewrite !append_cons. by rewrite IH.
Qed.

Lemma append_nil_r s : s +:+ "" = s.
Proof.
  induction s as [|c s IH]; [done|].
  rewrite append_cons. by rewrite IH.
Qed.

Lemma length_append s t :
  String.length (s +:+ t) = String.length s + String.length t.
Proof.
  induction s as [|c s IH]; [done|].
  rewrite append_cons. simpl. by rewrite IH.
Qed.

Lemma no_slash_nil : no_slash "".
Proof. intros a b H. destruct a; discriminate. Qed.

Lemma no_slash_cons c r : no_slash (String c r) <-> c <> "/"%char /\ no_slash r.
Proof.
  split.
  - intros H. split.
    + intros ->. by apply (H "" r).
    + intros a b ->. by apply (H (String c a) b).
  - intros [Hc Hr] a b Heq. destruct a as [|c' a].
    + rewrite append_nil_l in Heq. injection Heq as Heq _. done.
    + rewrite append_cons in Heq. injection Heq as _ Heq. by apply (Hr a b).
Qed.

(** [Index] finds the first "/": what is before it has none. *)
Lemma Index_slash t :
  match strings.Index t "/" with
  | None => no_slash t
  | Some m =>
      exists host path,
        t = host +:+ "/" +:+ path /\ no_slash host /\ m = String.length host
  end.
Proof.
  induction t as [|c r IH].
  - cbn. apply no_slash_nil.
  - cbn [strings.Index].
    destruct (String.prefix "/" (String c r)) eqn:Hp.
    + apply prefix_slash in Hp as (r' & [= -> ->]).
      exists "", r'. split; [done|]. split; [apply no_slash_nil|done].
    + assert (Hc : c <> "/"%char).
      { intros ->. assert (String.prefix "/" (String "/" r) = true) as Ht
          by (apply prefix_slash; eauto). congruence. }
      destruct (strings.Index r "/") as [m|]; cbn.
      * destruct IH as (host & path & -> & Hhost & ->).
        exists (String c host), path. split; [done|].
        split; [by apply no_slash_cons|done].
      * by apply no_slash_cons.
Qed.

Lemma Index_slash_first host path :
  no_slash host ->
  strings.Index (host +:+ "/" +:+ path) "/" = Some (String.length host).
Proof.
  induction host as [|c host IH]; intros Hns.
  - change ("" +:+ "/" +:+ path) with (String "/" path).
    cbn [strings.Index].
    assert (String.prefix "/" (String "/" path) = true) as ->
      by (apply prefix_slash; eauto). done.
  - apply no_slash_cons in Hns as [Hc Hns].
    rewrite append_cons. cbn [strings.Index].
    destruct (String.prefix "/" (String c (host +:+ "/" +:+ path))) eqn:Hp.
    + apply prefix_slash in Hp as (r' & [= Hc' _]). done.
    + by rewrite IH.
Qed.

Lemma Index_no_slash t : no_slash t -> strings.Index t "/" = None.
Proof.
  intros Hns. pose proof (Index_slash t) as H.
  destruct (strings.Index t "/") as [m|]; [|done].
  destruct H as (host & path & -> & _). by destruct (Hns host path).
Qed.

(** [SplitN(t, "/", 2)] cuts at the first "/", if there is one. *)
Lemma SplitN_no_slash t : no_slash t -> strings.SplitN t "/" 2 = [t].
Proof.
  intros Hns. unfold strings.SplitN. cbn [strings.genSplit].
  by rewrite Index_no_slash.
Qed.

Lemma SplitN_first_slash host path :
  no_slash host ->
  strings.SplitN (host +:+ "/" +:+ path) "/" 2 = [host; path].
Proof.
  intros Hns. unfold strings.SplitN. cbn [strings.genSplit].
  rewrite Index_slash_first by done.
  rewrite take_app. cbn [String.length].
  replace (host +:+ "/" +:+ path) with ((host +:+ "/") +:+ path)
    by apply append_assoc.
  replace (String.length host + 1) with (String.length (host +:+ "/"))
    by apply length_append.
  by rewrite drop_app.
Qed.

(** Every string is of one of the two shapes. *)
Lemma slash_or_not t :
  no_slash t
  \/ exists host path, no_slash host /\ t = host +:+ "/" +:+ path.
Proof.
  pose proof (Index_slash t) as H.
  destruct (strings.Index t "/") as [m|]; [right|by left].
  destruct H as (host & path & -> & Hns & _). eauto.
Qed.

End StringFacts.

(** ** The url parameter *)

Section TargetFacts.

Implicit Types (s t host path rest url : string) (c : ascii).

Lemma TrimRight_cons c r :
  strings.TrimRight (String c r) "/" =
  match strings.TrimRight r "/" with
  | EmptyString => if Ascii.eqb c "/" then "" else String c ""
  | r' => String c r'
  end.
Proof.
  cbn [strings.TrimRight strings.ContainsByte].
  by rewrite orb_false_r.
Qed.

Lemma TrimRight_slashes n : strings.TrimRight (slashes n) "/" = "".
Proof.
  induction n as [|n IH]; [done|].
  cbn [slashes]. rewrite TrimRight_cons, IH. done.
Qed.

Lemma TrimRight_app_slashes s n :
  strings.TrimRight (s +:+ slashes n) "/" = strings.TrimRight s "/".
Proof.
  induction s as [|c s IH].
  - rewrite append_nil_l. apply TrimRight_slashes.
  - rewrite append_cons, !TrimRight_cons. by rewrite IH.
Qed.

(** A string that does not end with "/" is left as it is. *)
Lemma TrimRight_id s :
  (forall a, s <> a +:+ "/") -> strings.TrimRight s "/" = s.
Proof.
  induction s as [|c r IH]; intros Hend; [done|].
  rewrite TrimRight_cons. destruct r as [|c' r'].
  - cbn [strings.TrimRight].
    destruct (Ascii.eqb_spec c "/") as [->|Hc]; [|done].
    by destruct (Hend "").
  - rewrite IH; [done|].
    intros a Ha. apply (Hend (String c a)).
    rewrite append_cons. by rewrite Ha.
Qed.

Lemma TrimRight_app s t :
  strings.TrimRight t "/" <> "" ->
  strings.TrimRight (s +:+ t) "/" = s +:+ strings.TrimRight t "/".
Proof.
  intros Ht. induction s as [|c s IH]; [done|].
  rewrite !append_cons, TrimRight_cons, IH.
  destruct (s +:+ strings.TrimRight t "/") as [|c' r'] eqn:Heq; [|done].
  destruct s; [|discriminate]. by rewrite append_nil_l in Heq.
Qed.

Lemma no_slash_no_trailing s : no_slash s -> forall a, s <> a +:+ "/".
Proof.
  intros Hns a Ha. apply (Hns a ""). by rewrite append_nil_r.
Qed.

Lemma scheme_split_https rest :
  scheme_split ("https://" +:+ rest) = ("https://", rest).
Proof.
  unfold scheme_split, strings.HasPrefix, strings.TrimPrefix,
    strings.HasPrefix.
  rewrite prefix_app. by rewrite (drop_app "https://").
Qed.

Lemma scheme_split_http rest :
  scheme_split ("http://" +:+ rest) = ("http://", rest).
Proof.
  unfold scheme_split, strings.HasPrefix, strings.TrimPrefix,
    strings.HasPrefix.
  assert (String.prefix "https://" ("http://" +:+ rest) = false) as ->.
  { rewrite !append_cons, !prefix_cons. reflexivity. }
  rewrite prefix_app. by rewrite (drop_app "http://").
Qed.

Lemma scheme_split_other url :
  strings.HasPrefix url "https://" = false ->
  strings.HasPrefix url "http://" = false ->
  scheme_split url = ("httpd://", url).
Proof. intros H1 H2. unfold scheme_split. by rewrite H1, H2. Qed.

(** The segments are those of the trimmed string, cut at its first
    "/". *)
Lemma pathSegments_no_slash rest :
  no_slash (strings.TrimRight rest "/") ->
  pathSegments rest = [strings.TrimRight rest "/"].
Proof. intros H. unfold pathSegments. by apply SplitN_no_slash. Qed.

Lemma pathSegments_slash rest host path :
  no_slash host -> strings.TrimRight rest "/" = host +:+ "/" +:+ path ->
  pathSegments rest = [host; path].
Proof.
  intros Hns Heq. unfold pathSegments. rewrite Heq.
  by apply SplitN_first_slash.
Qed.

Lemma target_split scheme rest url :
  scheme_split url = (scheme, rest) ->
  split_at_first_slash scheme (strings.TrimRight rest "/") (target url).
Proof.
  intros Hs. unfold target. rewrite Hs.
  destruct (slash_or_not (strings.TrimRight rest "/"))
    as [Hns | (host & path & Hns & Heq)].
  - left. split; [done|]. by rewrite pathSegments_no_slash.
  - right. exists host, path. split; [done|]. split; [done|].
    by rewrite (pathSegments_slash rest host path).
Qed.

Lemma handler_NotFound (E : Env) (st : Storage.t) url (w : World) :
  target url = None -> handler E st url w = (st, NotFound, w).
Proof. intros Ht. unfold handler. by rewrite Ht. Qed.

Lemma ends_with_slash_false (s : string) :
  ends_with_slash s = false -> forall a, s <> a +:+ "/".
Proof.
  induction s as [|c r IH]; intros He a Ha.
  - destruct a; discriminate.
  - destruct a as [|c' a'].
    + rewrite append_nil_l in Ha. injection Ha as -> ->. discriminate.
    + rewrite append_cons in Ha. injection Ha as _ Hr.
      apply (IH ltac:(by destruct r; [destruct a'|]) a' Hr).
Qed.

Lemma handler_Get (E : Env) (st : Storage.t) (url h p : string) (w : World) :
  target url = Some (h, p) ->
  fst (fst (handler E st url w)) = fst (fst (Storage.Get E st h p w))
  /\ snd (handler E st url w) = snd (Storage.Get E st h p w).
Proof.
  intros Ht. unfold handler. rewrite Ht. unfold bind.
  destruct (Storage.Get E st h p w) as [[st' [obj [msg|]]] w']; done.
Qed.

End TargetFacts.

(** ** The sample environments *)

Lemma readings_monotone : forall m n, m <= n ->
  (Demo.readings m <= Demo.readings n)%Z.
Proof.
  intros m n Hmn. unfold Demo.readings, time.Hour, time.Second,
    time.Nanosecond.
  destruct (Nat.ltb_spec m 3), (Nat.ltb_spec n 3); lia.
Qed.

(** The entry of [Demo.warm], fetched at time 0, is stale at the fourth
    clock read, two days later. *)
Lemma warm_stale (E : Env) :
  clock E = Demo.readings ->
  reaches_fetch E Demo.warm Demo.host Demo.page
    {| ticks := 3; requests := [] |}.
Proof.
  intros HE. split; [discriminate|]. split; [discriminate|]. split.
  - unfold Demo.warm. rewrite Get_allowed. cbn. by rewrite elem_of_singleton.
  - intros (obj & Hget & Hlt). rewrite HE in Hlt.
    vm_compute in Hget. injection Hget as <-.
    vm_compute in Hlt. discriminate.
Qed.

Lemma no_slash_host : no_slash "paulgraham.com".
Proof.
  repeat (apply no_slash_cons; split; [discriminate|]). apply no_slash_nil.
Qed.

(** * The claims *)

(** ** Storage.Get *)

(** C1, as the code has it: on the fetch path the call fails with
    [FetchFailed], and stores nothing, when [http.Get] returns an error or
    the body cannot be read.  The status of a response is not looked at:
    once its body is read the call succeeds and the object is cached,
    whatever [StatusCode] says. *)
Theorem Get_fetch_status_not_inspected (E : Env) (s : Storage.t)
    (h p : string) (w : World) :
  reaches_fetch E s h p w ->
  let '(s', r, w') := Storage.Get E s h p w in
  match origin E (length (requests w)) (h +:+ "/" +:+ p) with
  | None => fails r FetchFailed /\ s' = s
  | Some resp =>
      match Body resp with
      | None => fails r FetchFailed /\ s' = s
      | Some content =>
          snd r = None /\ Content (fst r) = content
          /\ Cache.Get (Storage.cache s') h p = (fst r, true)
      end
  end.
Proof.
  intros Hr. rewrite Get_fetch by done.
  destruct (origin E _ _) as [resp|].
  - destruct (Body resp) as [content|].
    + cbn. repeat split. apply Cache_Get_Put_eq.
    + split; [|done]. by exists "failed to read object".
  - split; [|done]. by exists "failed to get object".
Qed.

(** The stale entry of [Demo.warm] is replaced by the body of a 404. *)
Lemma Get_fetch_status_not_inspected_witness :
  let w := {| ticks := 3; requests := [] |} in
  let '(s', r, w') := Storage.Get Demo.E_missing Demo.warm Demo.host
                        Demo.page w in
  snd r = None /\ Content (fst r) = bytes_of_string "not found"
  /\ Cache.Get (Storage.cache s') Demo.host Demo.page = (fst r, true).
Proof.
  apply (Get_fetch_status_not_inspected Demo.E_missing Demo.warm Demo.host
           Demo.page {| ticks := 3; requests := [] |}).
  apply warm_stale. reflexivity.
Defined.

(** C1 fails as stated: the origin answers 404 with a body, the call is
    on the fetch path, and yet it succeeds and the 404 body is cached. *)
Lemma Get_caches_a_404 :
  reaches_fetch Demo.E_missing Storage.NewStorage Demo.host Demo.page Demo.w0
  /\ origin Demo.E_missing (length (requests Demo.w0))
       (Demo.host +:+ "/" +:+ Demo.page) = Some Demo.missing
  /\ ~ (200 <= StatusCode Demo.missing < 300)%Z
  /\ let '(s', r, w') :=
       Storage.Get Demo.E_missing Storage.NewStorage Demo.host Demo.page
         Demo.w0 in
     ~ (fails r FetchFailed
        /\ Storage.cache s' = Storage.cache Storage.NewStorage).
Proof.
  split; [|split; [|split]].
  - split; [discriminate|]. split; [discriminate|]. split.
    + cbn. by rewrite elem_of_singleton.
    + intros (obj & Hget & _). vm_compute in Hget. discriminate.
  - reflexivity.
  - cbn. lia.
  - destruct (Storage.Get _ _ _ _ _) as [[s' r] w'] eqn:HG.
    vm_compute in HG. injection HG as <- <- <-.
    intros [(msg & Hmsg & _) _]. discriminate.
Qed.

(** C2: an allowed key whose cached entry has not expired is answered
    with that entry, the clock read once, no origin asked, the storage
    untouched.  Hence, under a clock that never goes back, a second call
    for the key of a successful fetch, made before the first fetch is
    [TTL] old, returns the object of the first call, body and digest
    included, and only the first call asks the origin. *)
Theorem Get_fresh_entry_is_served (E : Env) (s : Storage.t) (h p : string) :
  monotone E ->
  h <> "" -> p <> "" -> h ∈ Storage.allowed s ->
  (forall w obj,
      Cache.Get (Storage.cache s) h p = (obj, true) ->
      (clock E (ticks w) < ExpiryTime obj)%Z ->
      Storage.Get E s h p w = (s, (obj, None), tick w)
      /\ requests (tick w) = requests w)
  /\ (forall w s1 obj1 w1 w2,
         Storage.Get E s h p w = (s1, (obj1, None), w1) ->
         requests w1 <> requests w ->
         (clock E (ticks w2) < UpdateTime obj1 + TTL)%Z ->
         requests w1 = requests w ++ [h +:+ "/" +:+ p]
         /\ Storage.Get E s1 h p w2 = (s1, (obj1, None), tick w2)
         /\ requests (tick w2) = requests w2).
Proof.
  intros Hmono Hh Hp Hin. split.
  - intros w obj Hget Hlt. split; [|done]. by apply Get_hit.
  - intros w s1 obj1 w1 w2 HG Hreq Hlt.
    destruct (Get_fetched _ _ _ _ _ _ _ _ HG Hreq)
      as (Hr & resp & content & Ho & Hb & Hobj & Hcache & Hall).
    split.
    { destruct (Get_requests E s h p w) as [[_ Hsent] | (Hn & _)]; [|done].
      by rewrite HG in Hsent. }
    split; [|done]. apply Get_hit; try done.
    + by rewrite Hall.
    + rewrite Hcache. apply Cache_Get_Put_eq.
    + subst obj1. cbn in *. unfold time.Add, TTL in *.
      pose proof (Hmono (ticks (checked s h p w))
                    (S (ticks (checked s h p w))) (Nat.le_succ_diag_r _)).
      lia.
Qed.

(** A first call on the new storage, then a second one 80 ns later. *)
Lemma Get_fresh_entry_is_served_witness :
  let '(s1, r1, w1) :=
    Storage.Get Demo.E_found Storage.NewStorage Demo.host Demo.page Demo.w0 in
  requests w1 = [Demo.host +:+ "/" +:+ Demo.page]
  /\ Storage.Get Demo.E_found s1 Demo.host Demo.page w1
     = (s1, (fst r1, None), tick w1)
  /\ requests (tick w1) = requests w1.
Proof.
  destruct (Storage.Get Demo.E_found Storage.NewStorage Demo.host Demo.page
              Demo.w0) as [[s1 [obj1 err]] w1] eqn:HG.
  assert (Herr : err = None).
  { vm_compute in HG. by injection HG as _ _ <- _. }
  subst err.
  assert (Hw : w1 = {| ticks := 2; requests := [Demo.host +:+ "/" +:+ Demo.page] |}).
  { vm_compute in HG. by injection HG as _ _ <-. }
  assert (Hu : UpdateTime obj1 = 0%Z).
  { vm_compute in HG. by injection HG as _ <- _. }
  assert (Hin : Demo.host ∈ Storage.allowed Storage.NewStorage).
  { cbn. by rewrite elem_of_singleton. }
  destruct (Get_fresh_entry_is_served Demo.E_found Storage.NewStorage
              Demo.host Demo.page readings_monotone
              ltac:(discriminate) ltac:(discriminate) Hin) as [_ H2].
  apply (H2 Demo.w0 s1 obj1 w1 w1 HG).
  - rewrite Hw. discriminate.
  - rewrite Hw, Hu. vm_compute. reflexivity.
Defined.

(** C3: for a non-empty origin outside the allow-list and a non-empty
    resource, the call fails with [OriginNotAllowed], asks no origin and
    leaves the storage, hence its cache, as it was. *)
Theorem Get_origin_not_allowed (E : Env) (s : Storage.t) (h p : string)
    (w : World) :
  h <> "" -> p <> "" -> h ∉ Storage.allowed s ->
  let '(s', r, w') := Storage.Get E s h p w in
  fails r OriginNotAllowed
  /\ requests w' = requests w
  /\ Storage.cache s' = Storage.cache s
  /\ s' = s.
Proof.
  intros Hh Hp Hout. rewrite Get_rejected by done.
  repeat split. by exists "host not allowed".
Qed.

Lemma Get_origin_not_allowed_witness :
  let '(s', r, w') :=
    Storage.Get Demo.E_found Storage.NewStorage "https://not-allowed.test"
      "x" Demo.w0 in
  fails r OriginNotAllowed
  /\ requests w' = requests Demo.w0
  /\ Storage.cache s' = Storage.cache Storage.NewStorage
  /\ s' = Storage.NewStorage.
Proof.
  apply (Get_origin_not_allowed Demo.E_found Storage.NewStorage
           "https://not-allowed.test" "x" Demo.w0).
  - discriminate.
  - discriminate.
  - cbn. rewrite elem_of_singleton. discriminate.
Defined.

(** C4: validation goes in a fixed order and the first failure wins.  An
    empty origin fails with [InvalidInput]; otherwise an empty resource
    fails with [InvalidInput]; otherwise an origin outside the allow-list
    fails with [OriginNotAllowed].  In the first two cases the world, and
    so the list of requests sent, is unchanged. *)
Theorem Get_validation_order (E : Env) (s : Storage.t) (h p : string)
    (w : World) :
  let '(s', r, w') := Storage.Get E s h p w in
  (h = "" ->
     fails r InvalidInput /\ snd r = Some "host name is empty"
     /\ requests w' = requests w)
  /\ (h <> "" -> p = "" ->
        fails r InvalidInput /\ snd r = Some "page name is empty"
        /\ requests w' = requests w)
  /\ (h <> "" -> p <> "" -> h ∉ Storage.allowed s ->
        fails r OriginNotAllowed /\ snd r = Some "host not allowed").
Proof.
  destruct (Storage.Get E s h p w) as [[s' r] w'] eqn:HG.
  split; [|split].
  - intros ->. rewrite Get_empty_host in HG. injection HG as <- <- <-.
    repeat split. by exists "host name is empty".
  - intros Hh ->. rewrite Get_empty_page in HG by done.
    injection HG as <- <- <-.
    repeat split. by exists "page name is empty".
  - intros Hh Hp Hout. rewrite Get_rejected in HG by done.
    injection HG as <- <- <-.
    repeat split. by exists "host not allowed".
Qed.

(** Both inputs empty, and the origin not allowed either: the empty
    origin is what is reported; with the resource alone empty, the empty
    resource is. *)
Lemma Get_validation_order_witness :
  fails (snd (fst (Storage.Get Demo.E_found Storage.NewStorage "" ""
                     Demo.w0))) InvalidInput
  /\ snd (snd (fst (Storage.Get Demo.E_found Storage.NewStorage
                      "https://not-allowed.test" "" Demo.w0)))
     = Some "page name is empty".
Proof.
  split.
  - generalize (Get_validation_order Demo.E_found Storage.NewStorage "" ""
                  Demo.w0).
    destruct (Storage.Get _ _ _ _ _) as [[s' r] w']. cbn [fst snd].
    intros (H & _ & _). apply H. reflexivity.
  - generalize (Get_validation_order Demo.E_found Storage.NewStorage
                  "https://not-allowed.test" "" Demo.w0).
    destruct (Storage.Get _ _ _ _ _) as [[s' r] w']. cbn [fst snd].
    intros (_ & H & _). apply H; [discriminate|reflexivity].
Defined.

(** C5: when the fetch of a call fails, by an error of [http.Get] or by a
    failure to read the body, the call returns an error and the storage is
    exactly what it was; the entry of the key, stale or absent, reads as
    before. *)
Theorem Get_fetch_failure_keeps_cache (E : Env) (s : Storage.t)
    (h p : string) (w : World) :
  reaches_fetch E s h p w ->
  (origin E (length (requests w)) (h +:+ "/" +:+ p) = None
   \/ exists resp, origin E (length (requests w)) (h +:+ "/" +:+ p) = Some resp
                   /\ Body resp = None) ->
  let '(s', r, w') := Storage.Get E s h p w in
  snd r <> None
  /\ fails r FetchFailed
  /\ s' = s
  /\ Cache.Get (Storage.cache s') h p = Cache.Get (Storage.cache s) h p.
Proof.
  intros Hr Hfail. rewrite Get_fetch by done.
  destruct Hfail as [-> | (resp & -> & ->)].
  - repeat split; [done|]. by exists "failed to get object".
  - repeat split; [done|]. by exists "failed to read object".
Qed.

Lemma Get_fetch_failure_keeps_cache_witness :
  let w := {| ticks := 3; requests := [] |} in
  let '(s', r, w') := Storage.Get Demo.E_truncated Demo.warm Demo.host
                        Demo.page w in
  snd r <> None
  /\ fails r FetchFailed
  /\ s' = Demo.warm
  /\ Cache.Get (Storage.cache s') Demo.host Demo.page
     = Cache.Get (Storage.cache Demo.warm) Demo.host Demo.page.
Proof.
  apply (Get_fetch_failure_keeps_cache Demo.E_truncated Demo.warm Demo.host
           Demo.page {| ticks := 3; requests := [] |}).
  - apply warm_stale. reflexivity.
  - right. exists Demo.truncated. split; reflexivity.
Defined.

(** C6, as the code has it: [UpdateTime] and [ExpiryTime] come from two
    successive reads of the clock.  After any sequence of calls on the
    storage that [NewStorage] makes, every object in the cache and every
    object returned without error has [ExpiryTime] equal to the clock read
    that follows the one in [UpdateTime], plus 24 hours; under a clock
    that never goes back this is [UpdateTime] plus 24 hours or later. *)
Theorem expiry_is_next_read_plus_ttl (E : Env) (reqs : list (string * string))
    (w : World) :
  let '(s', rs, w') := Storage.GetAll E Storage.NewStorage reqs w in
  (forall h p o, Cache.Get (Storage.cache s') h p = (o, true) -> stamped E o)
  /\ (forall o, (o, None) ∈ rs -> stamped E o)
  /\ (monotone E ->
      forall o,
        (exists h p, Cache.Get (Storage.cache s') h p = (o, true))
        \/ (o, None) ∈ rs ->
        (UpdateTime o + TTL <= ExpiryTime o)%Z).
Proof.
  assert (Hempty : cache_stamped E (Storage.cache Storage.NewStorage)).
  { intros h p o Hget. cbn in Hget. unfold Cache.Get in Hget.
    rewrite lookup_empty in Hget. discriminate. }
  destruct (GetAll_stamped E reqs Storage.NewStorage w Hempty) as [Hc Hr].
  destruct (Storage.GetAll E Storage.NewStorage reqs w) as [[s' rs] w'].
  cbn [fst snd] in *.
  assert (Hrs : forall o, (o, None) ∈ rs -> stamped E o).
  { intros o Ho. rewrite Forall_forall in Hr. by apply (Hr (o, None)). }
  split; [exact Hc|]. split; [exact Hrs|].
  intros Hmono o Ho.
  assert (Hst : stamped E o).
  { destruct Ho as [(h & p & Hget)|Ho]; [by apply (Hc h p)|by apply Hrs]. }
  destruct Hst as (k & -> & ->).
  pose proof (Hmono k (S k) (Nat.le_succ_diag_r k)). lia.
Qed.

(** Two calls for the same page under [Demo.E_found]: the object left in
    the cache expires 24 hours after its update, or later. *)
Lemma expiry_is_next_read_plus_ttl_witness :
  let o :=
    fst (Cache.Get
           (Storage.cache
              (fst (fst (Storage.GetAll Demo.E_found Storage.NewStorage
                           [(Demo.host, Demo.page); (Demo.host, Demo.page)]
                           Demo.w0))))
           Demo.host Demo.page) in
  (UpdateTime o + TTL <= ExpiryTime o)%Z.
Proof.
  generalize (expiry_is_next_read_plus_ttl Demo.E_found
                [(Demo.host, Demo.page); (Demo.host, Demo.page)] Demo.w0).
  destruct (Storage.GetAll _ _ _ _) as [[s' rs] w'] eqn:HG.
  cbn [fst snd]. intros (_ & _ & H).
  apply (H readings_monotone). left. exists Demo.host, Demo.page.
  vm_compute in HG. injection HG as <- _ _. vm_compute. reflexivity.
Defined.

(** C6 fails as stated: on the first fetch under [Demo.E_found] the two
    clock reads are 40 ns apart, and the object cached and returned
    expires 24 hours and 40 ns after its update. *)
Lemma expiry_is_not_update_plus_ttl :
  let '(s', r, w') :=
    Storage.Get Demo.E_found Storage.NewStorage Demo.host Demo.page Demo.w0 in
  snd r = None
  /\ Cache.Get (Storage.cache s') Demo.host Demo.page = (fst r, true)
  /\ ExpiryTime (fst r) <> (UpdateTime (fst r) + TTL)%Z
  /\ ExpiryTime (fst r) = (UpdateTime (fst r) + TTL + 40)%Z.
Proof.
  destruct (Storage.Get _ _ _ _ _) as [[s' r] w'] eqn:HG.
  vm_compute in HG. injection HG as <- <- <-.
  repeat split; vm_compute; discriminate.
Qed.

(** C7: the digest returned by a successful call that fetched is the
    hexadecimal MD5 of the very bytes returned as the body, which are the
    bytes the origin delivered; no other field enters it, so two such
    calls returning the same body return the same digest. *)
Theorem Get_etag_is_md5_of_body (E : Env) (s s' : Storage.t) (h p : string)
    (w w' : World) (obj : Object) :
  Storage.Get E s h p w = (s', (obj, None), w') ->
  requests w' <> requests w ->
  Etag obj = Hex.EncodeToString (MD5.Sum (Content obj))
  /\ (exists resp, origin E (length (requests w)) (h +:+ "/" +:+ p) = Some resp
                   /\ Body resp = Some (Content obj))
  /\ (forall E2 s2 s2' h2 p2 w2 w2' obj2,
         Storage.Get E2 s2 h2 p2 w2 = (s2', (obj2, None), w2') ->
         requests w2' <> requests w2 ->
         Content obj2 = Content obj -> Etag obj2 = Etag obj).
Proof.
  intros HG Hreq.
  destruct (Get_fetched _ _ _ _ _ _ _ _ HG Hreq)
    as (_ & resp & content & Ho & Hb & -> & _).
  split; [done|]. split; [by exists resp|].
  intros E2 s2 s2' h2 p2 w2 w2' obj2 HG2 Hreq2 Hsame.
  destruct (Get_fetched _ _ _ _ _ _ _ _ HG2 Hreq2)
    as (_ & resp2 & content2 & _ & _ & -> & _).
  cbn in *. by rewrite Hsame.
Qed.

Lemma Get_etag_is_md5_of_body_witness :
  let obj := fst (snd (fst (Storage.Get Demo.E_found Storage.NewStorage
                              Demo.host Demo.page Demo.w0))) in
  Etag obj = "5d41402abc4b2a76b9719d911017c592"
  /\ Content obj = bytes_of_string "hello".
Proof.
  destruct (Storage.Get Demo.E_found Storage.NewStorage Demo.host Demo.page
              Demo.w0) as [[s' [obj err]] w'] eqn:HG.
  pose proof HG as HG'. vm_compute in HG'.
  injection HG' as _ Hobj Herr Hw. subst obj err w'.
  assert (Hreq : [Demo.host +:+ "/" +:+ Demo.page] <> requests Demo.w0)
    by discriminate.
  destruct (Get_etag_is_md5_of_body _ _ _ _ _ _ _ _ HG Hreq)
    as (Hetag & _ & _).
  cbn [fst snd]. split; [|reflexivity].
  etransitivity; [exact Hetag|]. vm_compute. reflexivity.
Defined.

(** ** The url parameter of the handler *)

(** C8, as the code has it: the handler takes "https://" or "http://" off
    the front of the url parameter and keeps it as the scheme, or else
    uses "httpd://" and the whole parameter; it removes the "/" at the end
    of the remainder and cuts what is left at its first "/" into host and
    path.  The origin is scheme and host, the resource is the path; when
    what is left has no "/" the answer is 404 Not Found, and otherwise
    [Storage.Get] is called on that origin and resource. *)
Theorem target_splits_trimmed_remainder :
  (forall rest,
      split_at_first_slash "https://" (strings.TrimRight rest "/")
        (target ("https://" +:+ rest)))
  /\ (forall rest,
         split_at_first_slash "http://" (strings.TrimRight rest "/")
           (target ("http://" +:+ rest)))
  /\ (forall url,
         strings.HasPrefix url "https://" = false ->
         strings.HasPrefix url "http://" = false ->
         split_at_first_slash "httpd://" (strings.TrimRight url "/")
           (target url))
  /\ (forall E st url w,
         target url = None -> handler E st url w = (st, NotFound, w))
  /\ (forall E st url h p w,
         target url = Some (h, p) ->
         fst (fst (handler E st url w)) = fst (fst (Storage.Get E st h p w))
         /\ snd (handler E st url w) = snd (Storage.Get E st h p w)).
Proof.
  split; [|split; [|split; [|split]]].
  - intros rest. apply target_split, scheme_split_https.
  - intros rest. apply target_split, scheme_split_http.
  - intros url H1 H2. by apply target_split, scheme_split_other.
  - apply handler_NotFound.
  - apply handler_Get.
Qed.

(** A parameter without scheme and with a "/" at its end. *)
Lemma target_splits_trimmed_remainder_witness :
  split_at_first_slash "httpd://" "paulgraham.com/a"
    (target "paulgraham.com/a/").
Proof.
  destruct target_splits_trimmed_remainder as (_ & _ & H & _).
  apply (H "paulgraham.com/a/"); reflexivity.
Defined.

(** C8 fails as stated: cut at its first "/", the remainder "h/p/" has
    the path "p/", but the resource the handler asks for is "p". *)
Lemma target_drops_trailing_slash :
  target ("https://" +:+ "h/p/") = Some ("https://h", "p")
  /\ ~ split_at_first_slash "https://" "h/p/" (target ("https://" +:+ "h/p/")).
Proof.
  split; [reflexivity|].
  intros [[_ Hnone] | (host & path & _ & Heq & Hsome)].
  - discriminate.
  - change (target ("https://" +:+ "h/p/")) with (Some ("https://h", "p"))
      in Hsome.
    injection Hsome as Hhost <-.
    rewrite append_nil_l in Hhost. subst host. discriminate.
Qed.

(** ** Cache *)

(** C9: [Get] on an absent key returns the zero [Object] and [false];
    after [Put c h p obj], [Get] at [(h, p)] returns [obj] and [true], and
    every other key reads as it did before the [Put]. *)
Theorem Cache_get_put_laws :
  (forall (c : Cache.t) (h p : string),
      (forall host, c !! h = Some host -> host !! p = None) ->
      Cache.Get c h p = (Object_zero, false))
  /\ (forall (c : Cache.t) (h p : string) (obj : Object),
         Cache.Get (Cache.Put c h p obj) h p = (obj, true))
  /\ (forall (c : Cache.t) (h p : string) (obj : Object) (h' p' : string),
         (h', p') <> (h, p) ->
         Cache.Get (Cache.Put c h p obj) h' p' = Cache.Get c h' p').
Proof.
  split; [|split].
  - intros c h p Habs. unfold Cache.Get.
    destruct (c !! h) as [host|] eqn:Hc; [|done].
    by rewrite (Habs host eq_refl).
  - apply Cache_Get_Put_eq.
  - apply Cache_Get_Put_ne.
Qed.

(** The laws on the empty cache that [NewStorage] makes. *)
Lemma Cache_get_put_laws_witness :
  Cache.Get (Storage.cache Storage.NewStorage) Demo.host Demo.page
  = (Object_zero, false)
  /\ Cache.Get (Cache.Put (Storage.cache Storage.NewStorage) Demo.host
                  "about.html" Object_zero) Demo.host Demo.page
     = Cache.Get (Storage.cache Storage.NewStorage) Demo.host Demo.page.
Proof.
  destruct Cache_get_put_laws as (Habsent & _ & Hother). split.
  - apply Habsent. intros host. cbn. rewrite lookup_empty. discriminate.
  - apply Hother. discriminate.
Defined.

(** ** Trailing slashes *)

(** C10: the "/" at the end of the url parameter, its scheme removed, are
    all dropped before the split.  With or without them "host/path"
    yields the segments host and path, so the resource "path"; and a
    parameter whose only "/" are at its end has a single segment and is
    answered with 404 Not Found. *)
Theorem trailing_slashes_are_removed :
  (forall rest n, pathSegments (rest +:+ slashes n) = pathSegments rest)
  /\ (forall url host path n,
         no_slash host -> path <> "" -> ends_with_slash path = false ->
         snd (scheme_split url) = host +:+ "/" +:+ path +:+ slashes n ->
         pathSegments (host +:+ "/" +:+ path +:+ slashes n) = [host; path]
         /\ target url = Some (fst (scheme_split url) +:+ host, path))
  /\ (forall url host n,
         no_slash host ->
         snd (scheme_split url) = host +:+ slashes n ->
         pathSegments (host +:+ slashes n) = [host]
         /\ target url = None
         /\ forall E st w, handler E st url w = (st, NotFound, w)).
Proof.
  split; [|split].
  - intros rest n. unfold pathSegments. by rewrite TrimRight_app_slashes.
  - intros url host path n Hns Hne Hend Hrest.
    assert (Hseg : pathSegments (host +:+ "/" +:+ path +:+ slashes n)
                   = [host; path]).
    { apply pathSegments_slash; [done|].
      rewrite <- !append_assoc, TrimRight_app_slashes, append_assoc.
      assert (Hp : strings.TrimRight path "/" = path)
        by by apply TrimRight_id, ends_with_slash_false.
      rewrite <- (append_assoc host "/" path).
      rewrite TrimRight_app by (by rewrite Hp).
      by rewrite Hp, append_assoc. }
    split; [done|]. unfold target.
    destruct (scheme_split url) as [prefix rest]. cbn [fst snd] in *.
    by rewrite Hrest, Hseg.
  - intros url host n Hns Hrest.
    assert (Hseg : pathSegments (host +:+ slashes n) = [host]).
    { unfold pathSegments. rewrite TrimRight_app_slashes.
      rewrite TrimRight_id by by apply no_slash_no_trailing.
      by apply SplitN_no_slash. }
    assert (Ht : target url = None).
    { unfold target. destruct (scheme_split url) as [prefix rest].
      cbn [fst snd] in *. by rewrite Hrest, Hseg. }
    split; [done|]. split; [done|].
    intros E st w. by apply handler_NotFound.
Qed.

Lemma trailing_slashes_are_removed_witness :
  target "https://paulgraham.com/index.html///"
  = Some ("https://paulgraham.com", "index.html")
  /\ target "http://paulgraham.com/" = None.
Proof.
  destruct trailing_slashes_are_removed as (_ & Hpath & Hhost). split.
  - apply (Hpath "https://paulgraham.com/index.html///" "paulgraham.com"
             "index.html" 3);
      [apply no_slash_host|discriminate|reflexivity|reflexivity].
  - apply (Hhost "http://paulgraham.com/" "paulgraham.com" 1);
      [apply no_slash_host|reflexivity].
Defined.

(** * Further properties *)

(** ** Storage.Get, all outcomes *)

Section GetOutcomes.

Variable E : Env.

Implicit Types (s : Storage.t) (h p : string) (w : World) (obj : Object).

(** Past validation a call is a hit or goes to the origin. *)
Lemma Get_valid_cases s h p w :
  h <> "" -> p <> "" -> h ∈ Storage.allowed s ->
  (exists obj, Cache.Get (Storage.cache s) h p = (obj, true)
               /\ (clock E (ticks w) < ExpiryTime obj)%Z
               /\ Storage.Get E s h p w = (s, (obj, None), tick w))
  \/ reaches_fetch E s h p w.
Proof.
  intros Hh Hp Hin.
  destruct (Cache.Get (Storage.cache s) h p) as [obj ok] eqn:Hget.
  destruct ok.
  - destruct (Z.ltb_spec (clock E (ticks w)) (ExpiryTime obj)) as [Hlt|Hge].
    + left. exists obj. split; [done|]. split; [done|]. by apply Get_hit.
    + right. repeat split; try done. intros (o & Ho & Hlt).
      rewrite Hget in Ho. injection Ho as <-. lia.
  - right. repeat split; try done. intros (o & Ho & _).
    rewrite Hget in Ho. discriminate.
Qed.

(** An error comes with the zero [Object], is one of five, and leaves the
    storage as it was. *)
Lemma Get_error s h p w msg :
  snd (snd (fst (Storage.Get E s h p w))) = Some msg ->
  fst (fst (Storage.Get E s h p w)) = s
  /\ fst (snd (fst (Storage.Get E s h p w))) = Object_zero
  /\ In msg [ "host name is empty"; "page name is empty"; "host not allowed";
              "failed to get object"; "failed to read object" ].
Proof.
  destruct (decide (h = "")) as [->|Hh].
  { rewrite Get_empty_host. cbn. intros [= <-]. repeat split; simpl; auto 10. }
  destruct (decide (p = "")) as [->|Hp].
  { rewrite Get_empty_page by done. cbn. intros [= <-]. repeat split; simpl; auto 10. }
  destruct (decide (h ∈ Storage.allowed s)) as [Hin|Hout].
  2:{ rewrite Get_rejected by done. cbn. intros [= <-]. repeat split; simpl; auto 10. }
  destruct (Get_valid_cases s h p w Hh Hp Hin) as [(obj & _ & _ & ->) | Hr].
  - discriminate.
  - rewrite Get_fetch by done.
    destruct (origin E _ _) as [resp|]; [|cbn; intros [= <-]; repeat split; simpl; auto 10].
    destruct (Body resp); [discriminate|cbn; intros [= <-]; repeat split; simpl; auto 10].
Qed.

(** A call that sent nothing and returned no error served a cached entry
    that had not expired. *)
Lemma Get_served s h p w :
  snd (snd (fst (Storage.Get E s h p w))) = None ->
  requests (snd (Storage.Get E s h p w)) = requests w ->
  exists obj, Cache.Get (Storage.cache s) h p = (obj, true)
              /\ (clock E (ticks w) < ExpiryTime obj)%Z
              /\ Storage.Get E s h p w = (s, (obj, None), tick w).
Proof.
  intros Herr Hreq.
  destruct (decide (h = "")) as [->|Hh].
  { rewrite Get_empty_host in Herr. discriminate. }
  destruct (decide (p = "")) as [->|Hp].
  { rewrite Get_empty_page in Herr by done. discriminate. }
  destruct (decide (h ∈ Storage.allowed s)) as [Hin|Hout].
  2:{ rewrite Get_rejected in Herr by done. discriminate. }
  destruct (Get_valid_cases s h p w Hh Hp Hin) as [Hhit | Hr]; [done|].
  destruct (Get_requests E s h p w) as [[_ Hsent] | [Hn _]]; [|done].
  rewrite Hreq in Hsent. exfalso.
  apply (f_equal length) in Hsent. rewrite length_app in Hsent.
  cbn in Hsent. lia.
Qed.



(** The keys of the cache stay valid, its objects keep their digest. *)
Lemma Get_keys_valid s h p w :
  cache_keys_valid s -> cache_keys_valid (fst (fst (Storage.Get E s h p w))).
Proof.
  intros Hinv.
  destruct (Get_requests E s h p w) as [[Hr _] | (_ & _ & ->)]; [|done].
  rewrite Get_fetch by done.
  destruct (origin E _ _) as [resp|]; [|done].
  destruct (Body resp) as [content|]; [|done].
  intros h' p' o Hget. cbn [fst snd Storage.cache Storage.allowed] in *.
  destruct (decide ((h', p') = (h, p))) as [[= -> ->]|Hne].
  - by destruct Hr as (? & ? & ? & _).
  - rewrite Cache_Get_Put_ne in Hget by done. by apply (Hinv h' p' o).
Qed.

Lemma Get_tagged s h p w :
  cache_tagged (Storage.cache s) ->
  cache_tagged (Storage.cache (fst (fst (Storage.Get E s h p w))))
  /\ (snd (snd (fst (Storage.Get E s h p w))) = None ->
      Etag (fst (snd (fst (Storage.Get E s h p w))))
      = Hex.EncodeToString
          (MD5.Sum (Content (fst (snd (fst (Storage.Get E s h p w))))))).
Proof.
  intros Hinv.
  destruct (Get_cases E s h p w)
    as [(msg & -> & _) | [(obj & Hget & -> & _) | Hr]].
  - split; [done|]. discriminate.
  - split; [done|]. intros _. by apply (Hinv h p).
  - rewrite Get_fetch by done.
    destruct (origin E _ _) as [resp|]; [|split; [done|discriminate]].
    destruct (Body resp) as [content|]; [|split; [done|discriminate]].
    cbn [fst snd Storage.cache]. split; [|done].
    intros h' p' o Hget.
    destruct (decide ((h', p') = (h, p))) as [[= -> ->]|Hne].
    + rewrite Cache_Get_Put_eq in Hget. by injection Hget as <-.
    + rewrite Cache_Get_Put_ne in Hget by done. by apply (Hinv h' p').
Qed.


End GetOutcomes.

(** ** Sequences of calls *)

Section GetAllFacts.

Variable E : Env.

Implicit Types (s : Storage.t) (h p : string) (w : World) (obj : Object).


Lemma GetAll_allowed reqs : forall s w,
  Storage.allowed (fst (fst (Storage.GetAll E s reqs w))) = Storage.allowed s.
Proof.
  induction reqs as [|[h p] rest IH]; intros s w; [done|].
  rewrite GetAll_cons.
  pose proof (Get_allowed E s h p w) as Hget.
  destruct (Storage.Get E s h p w) as [r w1]. cbn [fst snd] in *.
  pose proof (IH (fst r) w1) as Hrest.
  destruct (Storage.GetAll E (fst r) rest w1) as [rs w2].
  cbn [fst snd] in *. congruence.
Qed.

Lemma GetAll_keys_valid reqs : forall s w,
  cache_keys_valid s ->
  cache_keys_valid (fst (fst (Storage.GetAll E s reqs w))).
Proof.
  induction reqs as [|[h p] rest IH]; intros s w Hinv; [done|].
  rewrite GetAll_cons.
  pose proof (Get_keys_valid E s h p w Hinv) as Hget.
  destruct (Storage.Get E s h p w) as [r w1]. cbn [fst snd] in *.
  pose proof (IH (fst r) w1 Hget) as Hrest.
  by destruct (Storage.GetAll E (fst r) rest w1) as [rs w2].
Qed.

Lemma GetAll_tagged reqs : forall s w,
  cache_tagged (Storage.cache s) ->
  cache_tagged (Storage.cache (fst (fst (Storage.GetAll E s reqs w))))
  /\ Forall (fun r : Object * option string =>
               snd r = None ->
               Etag (fst r) = Hex.EncodeToString (MD5.Sum (Content (fst r))))
       (snd (fst (Storage.GetAll E s reqs w))).
Proof.
  induction reqs as [|[h p] rest IH]; intros s w Hinv.
  - split; [done|]. constructor.
  - rewrite GetAll_cons.
    destruct (Get_tagged E s h p w Hinv) as [Hinv1 Hobj].
    destruct (Storage.Get E s h p w) as [r w1]. cbn [fst snd] in *.
    destruct (IH (fst r) w1 Hinv1) as [Hinv2 Hall].
    destruct (Storage.GetAll E (fst r) rest w1) as [rs w2].
    cbn [fst snd] in *. split; [done|]. by constructor.
Qed.


Lemma ticks_iter k w : ticks (Nat.iter k tick w) = k + ticks w.
Proof.
  induction k as [|k IH]; [done|].
  rewrite Nat.iter_succ. cbn [tick ticks]. by rewrite IH.
Qed.

Lemma requests_iter k w : requests (Nat.iter k tick w) = requests w.
Proof.
  induction k as [|k IH]; [done|].
  rewrite Nat.iter_succ. by cbn [tick requests].
Qed.

(** Calls for a key whose entry is unexpired at each of their clock reads
    are all hits. *)
Lemma GetAll_hits s h p obj k : forall w,
  h <> "" -> p <> "" -> h ∈ Storage.allowed s ->
  Cache.Get (Storage.cache s) h p = (obj, true) ->
  (forall i, i < k -> (clock E (i + ticks w) < ExpiryTime obj)%Z) ->
  Storage.GetAll E s (repeat (h, p) k) w
  = ((s, repeat (obj, None) k), Nat.iter k tick w).
Proof.
  induction k as [|k IH]; intros w Hh Hp Hin Hget Hfresh; [done|].
  cbn [repeat]. rewrite GetAll_cons.
  rewrite (Get_hit E s h p w obj) by (try done; apply (Hfresh 0); lia).
  cbn [fst snd]. rewrite IH; try done.
  - cbn [fst snd]. f_equal. symmetry. apply Nat.iter_succ_r.
  - intros i Hi. cbn [tick ticks].
    replace (i + S (ticks w)) with (S i + ticks w) by lia.
    apply Hfresh. lia.
Qed.

End GetAllFacts.

(** ** The digest as text *)

Lemma length_le_bytes k n : length (MD5.le_bytes k n) = k.
Proof.
  revert n. induction k as [|k IH]; intros n; [done|].
  cbn [MD5.le_bytes length]. by rewrite IH.
Qed.

Lemma length_Sum content : length (MD5.Sum content) = 16.
Proof.
  unfold MD5.Sum. destruct (MD5.blocks _ _ _) as [a b c d].
  by rewrite length_map, !length_app, !length_le_bytes.
Qed.

Lemma length_EncodeToString src :
  String.length (Hex.EncodeToString src) = 2 * length src.
Proof.
  induction src as [|v rest IH]; [done|].
  cbn [Hex.EncodeToString String.length length]. rewrite IH. lia.
Qed.

Lemma hex_digits_EncodeToString src :
  forallb is_hex_digit (list_ascii_of_string (Hex.EncodeToString src)) = true.
Proof.
  induction src as [|v rest IH]; [done|].
  cbn [Hex.EncodeToString list_ascii_of_string forallb]. rewrite IH.
  by destruct v.
Qed.

(** ** The url parameter and the handler *)

Section UrlFacts.

Implicit Types (s t host path rest url : string) (c : ascii).

Lemma prefix_drop t s :
  String.prefix t s = true -> s = t +:+ strings.drop (String.length t) s.
Proof.
  revert s. induction t as [|c t IH]; intros s Hp; [by destruct s|].
  destruct s as [|c' s]; [discriminate|].
  rewrite prefix_cons in Hp. destruct (ascii_dec c c') as [<-|]; [|done].
  rewrite append_cons. cbn [String.length strings.drop]. by rewrite <- IH.
Qed.

Lemma slashes_succ n : slashes (S n) = "/" +:+ slashes n.
Proof. reflexivity. Qed.

(** [TrimRight] takes a run of "/" off the end, and all of it. *)
Lemma TrimRight_decomp s :
  exists n, s = strings.TrimRight s "/" +:+ slashes n.
Proof.
  induction s as [|c r (n & IH)]; [by exists 0|].
  rewrite TrimRight_cons.
  destruct (strings.TrimRight r "/") as [|a b] eqn:Hr.
  - rewrite append_nil_l in IH.
    destruct (Ascii.eqb_spec c "/") as [->|Hc].
    + exists (S n). by rewrite IH.
    + exists n. by rewrite IH.
  - exists n. rewrite append_cons. by rewrite <- IH.
Qed.

Lemma TrimRight_not_ends s :
  ends_with_slash (strings.TrimRight s "/") = false.
Proof.
  induction s as [|c r IH]; [done|].
  rewrite TrimRight_cons.
  destruct (strings.TrimRight r "/") as [|a b] eqn:Hr.
  - destruct (Ascii.eqb_spec c "/") as [->|Hc]; [done|].
    cbn. by apply Ascii.eqb_neq.
  - exact IH.
Qed.

Lemma ends_with_slash_app s t :
  t <> "" -> ends_with_slash (s +:+ t) = ends_with_slash t.
Proof.
  intros Ht. induction s as [|c s IH]; [done|].
  rewrite append_cons. cbn [ends_with_slash].
  destruct (s +:+ t) as [|a b] eqn:Hst; [|done].
  destruct s; [|discriminate]. by rewrite append_nil_l in Hst.
Qed.

Lemma scheme_split_prefix url :
  In (fst (scheme_split url)) ["https://"; "http://"; "httpd://"].
Proof.
  unfold scheme_split.
  destruct (strings.HasPrefix url "https://"); [cbn; auto|].
  destruct (strings.HasPrefix url "http://"); cbn; auto.
Qed.

(** What the two names given to [Storage.Get] are made of. *)
Lemma target_Some url h p :
  target url = Some (h, p) ->
  exists host,
    h = fst (scheme_split url) +:+ host /\ no_slash host
    /\ strings.TrimRight (snd (scheme_split url)) "/" = host +:+ "/" +:+ p
    /\ p <> "" /\ ends_with_slash p = false.
Proof.
  unfold target. destruct (scheme_split url) as [prefix rest].
  cbn [fst snd].
  pose proof (TrimRight_not_ends rest) as Hend.
  destruct (slash_or_not (strings.TrimRight rest "/"))
    as [Hns | (host & path & Hns & Heq)].
  - by rewrite pathSegments_no_slash.
  - rewrite (pathSegments_slash rest host path) by done.
    intros [= <- <-]. exists host. split; [done|]. split; [done|].
    split; [done|]. rewrite Heq in Hend.
    assert (Hpath : path <> "").
    { intros ->. rewrite append_nil_r in Hend.
      by rewrite (ends_with_slash_app host "/") in Hend. }
    split; [done|].
    rewrite <- append_assoc in Hend.
    by rewrite (ends_with_slash_app (host +:+ "/") path) in Hend.
Qed.

Lemma target_names_not_empty url h p :
  target url = Some (h, p) -> h <> "" /\ p <> "".
Proof.
  intros Ht. destruct (target_Some url h p Ht) as (host & -> & _ & _ & Hp & _).
  split; [|done].
  pose proof (scheme_split_prefix url) as Hpre.
  destruct (fst (scheme_split url)); [|discriminate].
  cbn in Hpre. by destruct Hpre as [|[|[|[]]]].
Qed.

End UrlFacts.

Lemma scheme_split_cases (url : string) :
  (scheme_split url = ("https://", snd (scheme_split url))
   /\ url = "https://" +:+ snd (scheme_split url))
  \/ (scheme_split url = ("http://", snd (scheme_split url))
      /\ url = "http://" +:+ snd (scheme_split url)
      /\ strings.HasPrefix url "https://" = false)
  \/ (scheme_split url = ("httpd://", url)
      /\ strings.HasPrefix url "https://" = false
      /\ strings.HasPrefix url "http://" = false).
Proof.
  unfold scheme_split, strings.TrimPrefix.
  destruct (strings.HasPrefix url "https://") eqn:H1.
  { left. split; [done|]. by apply prefix_drop. }
  destruct (strings.HasPrefix url "http://") eqn:H2.
  { right. left. split; [done|]. split; [|done]. by apply prefix_drop. }
  right. right. done.
Qed.

(** With both names non-empty, no error of [Storage.Get] is an
    [InvalidInput]. *)
Lemma Get_not_invalid (E : Env) (s : Storage.t) (h p : string) (w : World) :
  h <> "" -> p <> "" ->
  ~ fails (snd (fst (Storage.Get E s h p w))) InvalidInput.
Proof.
  intros Hh Hp (msg & Hmsg & Hkind).
  destruct (decide (h ∈ Storage.allowed s)) as [Hin|Hout].
  2:{ rewrite Get_rejected in Hmsg by done. by injection Hmsg as <-. }
  destruct (Get_valid_cases E s h p w Hh Hp Hin) as [(obj & _ & _ & HG) | Hr].
  - by rewrite HG in Hmsg.
  - rewrite Get_fetch in Hmsg by done.
    destruct (origin E _ _) as [resp|]; [|by injection Hmsg as <-].
    destruct (Body resp); [done|by injection Hmsg as <-].
Qed.

(** The handler answers 404 and leaves the storage alone, or serves what
    [Storage.Get] returned without error. *)
Lemma handler_cases (E : Env) (s : Storage.t) (url : string) (w : World) :
  (snd (fst (handler E s url w)) = NotFound
   /\ fst (fst (handler E s url w)) = s)
  \/ exists h p obj,
       target url = Some (h, p)
       /\ Storage.Get E s h p w
          = (fst (fst (handler E s url w)), (obj, None),
             snd (handler E s url w))
       /\ snd (fst (handler E s url w))
          = ServeContent
              [ ("Content-Type", ContentType obj); ("ETag", Etag obj);
                ("Access-Control-Allow-Origin", "*");
                ("Access-Control-Allow-Methods", "GET, OPTIONS") ]
              p (UpdateTime obj) (Content obj).
Proof.
  unfold handler. destruct (target url) as [[h p]|] eqn:Ht; [|by left].
  unfold bind. pose proof (Get_error E s h p w) as Herr.
  destruct (Storage.Get E s h p w) as [[s' [obj [msg|]]] w'] eqn:HG.
  - left. cbn [fst snd] in *. split; [done|].
    by destruct (Herr msg eq_refl) as (-> & _).
  - right. by exists h, p, obj.
Qed.

(** ** What calls keep *)

Lemma Get_keeps_keys (E : Env) (s : Storage.t) (h p : string) (w : World)
    (h' p' : string) (o : Object) :
  Cache.Get (Storage.cache s) h' p' = (o, true) ->
  exists o',
    Cache.Get (Storage.cache (fst (fst (Storage.Get E s h p w)))) h' p'
    = (o', true).
Proof.
  intros Hget.
  destruct (Get_requests E s h p w) as [[Hr _] | (_ & _ & ->)]; [|by exists o].
  rewrite Get_fetch by done.
  destruct (origin E _ _) as [resp|]; [|by exists o].
  destruct (Body resp) as [content|]; [|by exists o].
  cbn [fst snd Storage.cache].
  destruct (decide ((h', p') = (h, p))) as [[= -> ->]|Hne].
  - eexists. apply Cache_Get_Put_eq.
  - exists o. by rewrite Cache_Get_Put_ne.
Qed.

Lemma NewStorage_keys_valid : cache_keys_valid Storage.NewStorage.
Proof.
  intros h p o Hget. cbn in Hget. unfold Cache.Get in Hget.
  rewrite lookup_empty in Hget. discriminate.
Qed.

Lemma NewStorage_tagged : cache_tagged (Storage.cache Storage.NewStorage).
Proof.
  intros h p o Hget. cbn in Hget. unfold Cache.Get in Hget.
  rewrite lookup_empty in Hget. discriminate.
Qed.

(** * More on the code *)

(** ** Storage.Get *)


(** X2: whenever a call returns an error, the object returned is the
    zero [Object], the storage is the one the call was given, and the
    error is of one of the three kinds. *)
Theorem Get_error_keeps_storage (E : Env) (s : Storage.t) (h p : string)
    (w : World) :
  let '(s', r, w') := Storage.Get E s h p w in
  snd r <> None ->
  s' = s /\ fst r = Object_zero /\ exists k, fails r k.
Proof.
  pose proof (Get_error E s h p w) as H.
  destruct (Storage.Get E s h p w) as [[s' [obj [msg|]]] w']; [|done].
  cbn [fst snd] in *. intros _.
  destruct (H msg eq_refl) as (-> & -> & Hmsg).
  split; [done|]. split; [done|].
  cbn in Hmsg.
  destruct Hmsg as [<-|[<-|[<-|[<-|[<-|[]]]]]];
    [exists InvalidInput|exists InvalidInput|exists OriginNotAllowed
    |exists FetchFailed|exists FetchFailed]; eexists; split; reflexivity.
Qed.

(** The origin is down while the entry of [Demo.warm] is stale. *)
Lemma Get_error_keeps_storage_witness :
  let '(s', r, w') :=
    Storage.Get Demo.E_down Demo.warm Demo.host Demo.page
      {| ticks := 3; requests := [] |} in
  s' = Demo.warm /\ fst r = Object_zero /\ exists k, fails r k.
Proof.
  generalize (Get_error_keeps_storage Demo.E_down Demo.warm Demo.host
                Demo.page {| ticks := 3; requests := [] |}).
  rewrite Get_fetch by (apply warm_stale; reflexivity).
  cbn [origin Demo.E_down]. intros H. apply H. discriminate.
Defined.



(** X4: an entry is served only while the clock is strictly before its
    [ExpiryTime].  A call that succeeds without asking the origin returns
    the cached entry of its key, unexpired at the read of the call; and
    for a valid key whose entry expires at or before that read, the very
    instant of expiry included, the origin is asked. *)
Theorem Get_serves_only_unexpired (E : Env) (s : Storage.t) (h p : string)
    (w : World) :
  (snd (snd (fst (Storage.Get E s h p w))) = None ->
   requests (snd (Storage.Get E s h p w)) = requests w ->
   exists obj, Cache.Get (Storage.cache s) h p = (obj, true)
               /\ (clock E (ticks w) < ExpiryTime obj)%Z
               /\ Storage.Get E s h p w = (s, (obj, None), tick w))
  /\ (forall obj,
        h <> "" -> p <> "" -> h ∈ Storage.allowed s ->
        Cache.Get (Storage.cache s) h p = (obj, true) ->
        (ExpiryTime obj <= clock E (ticks w))%Z ->
        requests (snd (Storage.Get E s h p w))
        = requests w ++ [h +:+ "/" +:+ p]).
Proof.
  split; [apply Get_served|].
  intros obj Hh Hp Hin Hget Hexp.
  destruct (Get_requests E s h p w) as [[_ Hsent] | (Hn & _)]; [done|].
  destruct Hn. repeat split; try done.
  intros (o & Ho & Hlt). rewrite Hget in Ho. injection Ho as <-. lia.
Qed.

(** At the instant its entry expires, [Demo.warm] asks the origin. *)
Lemma Get_serves_only_unexpired_witness :
  requests (snd (Storage.Get Demo.E_at_expiry Demo.warm Demo.host Demo.page
                   Demo.w0))
  = [Demo.host +:+ "/" +:+ Demo.page].
Proof.
  destruct (Get_serves_only_unexpired Demo.E_at_expiry Demo.warm Demo.host
              Demo.page Demo.w0) as [_ H].
  apply (H (fst (Cache.Get (Storage.cache Demo.warm) Demo.host Demo.page))).
  - discriminate.
  - discriminate.
  - unfold Demo.warm. rewrite Get_allowed. cbn. by rewrite elem_of_singleton.
  - vm_compute. reflexivity.
  - vm_compute. discriminate.
Defined.

(** ** Sequences of calls *)

(** X5: no sequence of calls changes the allow-list, and every key the
    cache holds afterwards passed validation: its origin is non-empty and
    in the allow-list, its resource is non-empty. *)
Theorem GetAll_keeps_allow_list_and_valid_keys (E : Env) (s : Storage.t)
    (reqs : list (string * string)) (w : World) :
  cache_keys_valid s ->
  let s' := fst (fst (Storage.GetAll E s reqs w)) in
  Storage.allowed s' = Storage.allowed s
  /\ forall h p o, Cache.Get (Storage.cache s') h p = (o, true) ->
                   h <> "" /\ p <> "" /\ h ∈ Storage.allowed s.
Proof.
  intros Hinv. cbn zeta. split; [apply GetAll_allowed|].
  intros h p o Hget.
  destruct (GetAll_keys_valid E reqs s w Hinv h p o Hget) as (? & ? & Hin).
  by rewrite GetAll_allowed in Hin.
Qed.

(** Whatever is asked of the new storage, an origin outside the
    allow-list included, the cache only holds pages of the one allowed
    origin. *)
Lemma GetAll_keeps_allow_list_and_valid_keys_witness :
  let s' :=
    fst (fst (Storage.GetAll Demo.E_found Storage.NewStorage
                [("https://not-allowed.test", "x"); (Demo.host, Demo.page)]
                Demo.w0)) in
  Storage.allowed s' = {[ Demo.host ]}
  /\ forall h p o, Cache.Get (Storage.cache s') h p = (o, true) ->
                   h <> "" /\ p <> "" /\ h ∈ ({[ Demo.host ]} : gset string).
Proof.
  apply (GetAll_keeps_allow_list_and_valid_keys Demo.E_found
           Storage.NewStorage
           [("https://not-allowed.test", "x"); (Demo.host, Demo.page)]
           Demo.w0).
  apply NewStorage_keys_valid.
Defined.


(** X7: on a cache whose objects carry the digest of their content, the
    empty cache of [NewStorage] for one, a sequence of calls keeps it so:
    every object cached afterwards, and every object returned without
    error, hit or fetch, has for [Etag] the hexadecimal MD5 of its
    [Content]. *)
Theorem GetAll_etag_is_md5_of_content (E : Env) (s : Storage.t)
    (reqs : list (string * string)) (w : World) :
  cache_tagged (Storage.cache s) ->
  let '(s', rs, w') := Storage.GetAll E s reqs w in
  (forall h p o, Cache.Get (Storage.cache s') h p = (o, true) ->
                 Etag o = Hex.EncodeToString (MD5.Sum (Content o)))
  /\ (forall o, (o, None) ∈ rs ->
                Etag o = Hex.EncodeToString (MD5.Sum (Content o))).
Proof.
  intros Hinv. destruct (GetAll_tagged E reqs s w Hinv) as [Hc Hr].
  destruct (Storage.GetAll E s reqs w) as [[s' rs] w']. cbn [fst snd] in *.
  split; [exact Hc|]. intros o Ho.
  rewrite Forall_forall in Hr. by apply (Hr (o, None)).
Qed.

(** A fetch, then a hit: the object the hit returns carries the digest
    of its content. *)
Lemma GetAll_etag_is_md5_of_content_witness :
  let '(s', rs, w') :=
    Storage.GetAll Demo.E_found Storage.NewStorage
      [(Demo.host, Demo.page); (Demo.host, Demo.page)] Demo.w0 in
  forall o, (o, None) ∈ rs ->
            Etag o = Hex.EncodeToString (MD5.Sum (Content o)).
Proof.
  generalize (GetAll_etag_is_md5_of_content Demo.E_found Storage.NewStorage
                [(Demo.host, Demo.page); (Demo.host, Demo.page)] Demo.w0
                NewStorage_tagged).
  destruct (Storage.GetAll _ _ _ _) as [[s' rs] w']. by intros [_ H].
Defined.

(** X8: the digest of lines 113 to 115 is always a text of 32 characters,
    each one of the digits 0 to 9 or a to f. *)
Theorem etag_is_32_hex_digits (content : list byte) :
  String.length (Hex.EncodeToString (MD5.Sum content)) = 32
  /\ forallb is_hex_digit
       (list_ascii_of_string (Hex.EncodeToString (MD5.Sum content))) = true.
Proof.
  split; [|apply hex_digits_EncodeToString].
  by rewrite length_EncodeToString, length_Sum.
Qed.

(** X9: calls in a row for a valid key with a cached entry, the last of
    which reads the clock before the entry expires, are all answered with
    that entry when the clock never goes back: no request is sent, the
    storage is unchanged and the clock is read once per call. *)
Theorem GetAll_repeated_hits (E : Env) (s : Storage.t) (h p : string)
    (obj : Object) (k : nat) (w : World) :
  monotone E ->
  h <> "" -> p <> "" -> h ∈ Storage.allowed s ->
  Cache.Get (Storage.cache s) h p = (obj, true) ->
  (clock E (k + ticks w) < ExpiryTime obj)%Z ->
  let '(s', rs, w') := Storage.GetAll E s (repeat (h, p) (S k)) w in
  s' = s /\ rs = repeat (obj, None) (S k)
  /\ requests w' = requests w /\ ticks w' = S k + ticks w.
Proof.
  intros Hmono Hh Hp Hin Hget Hlast.
  rewrite (GetAll_hits E s h p obj (S k) w) by
    (try done; intros i Hi;
     pose proof (Hmono (i + ticks w) (k + ticks w) ltac:(lia)); lia).
  split; [done|]. split; [done|].
  split; [apply requests_iter|apply ticks_iter].
Qed.

(** Three calls on [Demo.warm], read 0, 40 and 80 ns after the fetch. *)
Lemma GetAll_repeated_hits_witness :
  let '(s', rs, w') :=
    Storage.GetAll Demo.E_found Demo.warm
      (repeat (Demo.host, Demo.page) 3) Demo.w0 in
  s' = Demo.warm /\ requests w' = requests Demo.w0 /\ ticks w' = 3.
Proof.
  generalize (GetAll_repeated_hits Demo.E_found Demo.warm Demo.host Demo.page
                (fst (Cache.Get (Storage.cache Demo.warm) Demo.host Demo.page))
                2 Demo.w0 readings_monotone).
  destruct (Storage.GetAll _ _ _ _) as [[s' rs] w'].
  intros H. destruct H as (Hs & _ & Hreq & Hticks).
  - discriminate.
  - discriminate.
  - unfold Demo.warm. rewrite Get_allowed. cbn. by rewrite elem_of_singleton.
  - vm_compute. reflexivity.
  - vm_compute. reflexivity.
  - done.
Defined.

(** ** Cache *)

(** X10: writes compose as in a map from keys to objects.  A second
    [Put] on a key replaces the first, two [Put] on different keys can be
    swapped, and after any sequence of [Put] a key reads as the last
    object written to it, or as before the sequence when none was. *)
Theorem Cache_Put_composes :
  (forall (c : Cache.t) (h p : string) (o1 o2 : Object),
      Cache.Put (Cache.Put c h p o1) h p o2 = Cache.Put c h p o2)
  /\ (forall (c : Cache.t) (h1 p1 h2 p2 : string) (o1 o2 : Object),
         (h1, p1) <> (h2, p2) ->
         Cache.Put (Cache.Put c h1 p1 o1) h2 p2 o2
         = Cache.Put (Cache.Put c h2 p2 o2) h1 p1 o1)
  /\ (forall (l : list (string * string * Object)) (c : Cache.t)
             (h p : string),
         Cache.Get (PutAll c l) h p
         = match last_put l h p with
           | Some o => (o, true)
           | None => Cache.Get c h p
           end).
Proof.
  split; [|split].
  - intros c h p o1 o2. unfold Cache.Put.
    rewrite lookup_insert_eq, !insert_insert_eq. done.
  - intros c h1 p1 h2 p2 o1 o2 Hne. unfold Cache.Put.
    destruct (decide (h1 = h2)) as [->|Hh].
    + rewrite !lookup_insert_eq, !insert_insert_eq.
      f_equal. apply insert_insert_ne. congruence.
    + rewrite !lookup_insert_ne by done.
      by apply insert_insert_ne.
  - induction l as [|[[h' p'] o] rest IH]; intros c h p; [done|].
    cbn [PutAll fold_left last_put]. fold (PutAll (Cache.Put c h' p' o) rest).
    rewrite IH. destruct (last_put rest h p) as [o'|]; [done|].
    destruct (decide ((h', p') = (h, p))) as [[= -> ->]|Hne].
    + apply Cache_Get_Put_eq.
    + apply Cache_Get_Put_ne. congruence.
Qed.

(** Two pages of one origin, written in either order. *)
Lemma Cache_Put_composes_witness :
  Cache.Put (Cache.Put ∅ Demo.host "a" Object_zero) Demo.host "b" Object_zero
  = Cache.Put (Cache.Put ∅ Demo.host "b" Object_zero) Demo.host "a"
      Object_zero.
Proof.
  destruct Cache_Put_composes as (_ & Hswap & _).
  apply Hswap. discriminate.
Defined.

(** ** The handler *)

(** X11: line 161 yields one or two segments, never none nor more.  The
    parameter is its trimmed form followed by "/" only; the trimmed form
    does not end with "/"; without "/" it is the single segment, and
    otherwise the segments are what stands before and after its first
    "/", the second one neither empty nor ending with "/". *)
Theorem pathSegments_shape (url : string) :
  let t := strings.TrimRight url "/" in
  (exists n, url = t +:+ slashes n)
  /\ ends_with_slash t = false
  /\ ((no_slash t /\ pathSegments url = [t])
      \/ (exists host path,
            no_slash host /\ path <> "" /\ ends_with_slash path = false
            /\ t = host +:+ "/" +:+ path
            /\ pathSegments url = [host; path])).
Proof.
  cbn zeta. split; [apply TrimRight_decomp|].
  pose proof (TrimRight_not_ends url) as Hend. split; [done|].
  destruct (slash_or_not (strings.TrimRight url "/"))
    as [Hns | (host & path & Hns & Heq)].
  - left. split; [done|]. by apply pathSegments_no_slash.
  - right. exists host, path. rewrite Heq in Hend.
    assert (Hpath : path <> "").
    { intros ->. rewrite append_nil_r in Hend.
      by rewrite (ends_with_slash_app host "/") in Hend. }
    split; [done|]. split; [done|].
    split; [|split; [done|by apply pathSegments_slash]].
    rewrite <- append_assoc in Hend.
    by rewrite (ends_with_slash_app (host +:+ "/") path) in Hend.
Qed.

(** X12: the two names the handler gives to [Storage.Get] are never
    empty, and the resource does not end with "/"; so no request through
    the handler fails as an [InvalidInput]. *)
Theorem handler_names_are_not_empty (url h p : string) :
  target url = Some (h, p) ->
  h <> "" /\ p <> "" /\ ends_with_slash p = false
  /\ forall E s w, ~ fails (snd (fst (Storage.Get E s h p w))) InvalidInput.
Proof.
  intros Ht. destruct (target_names_not_empty url h p Ht) as [Hh Hp].
  destruct (target_Some url h p Ht) as (_ & _ & _ & _ & _ & Hend).
  split; [done|]. split; [done|]. split; [done|].
  intros E s w. by apply Get_not_invalid.
Qed.

Lemma handler_names_are_not_empty_witness :
  ends_with_slash "a/b" = false
  /\ ~ fails (snd (fst (Storage.Get Demo.E_down Storage.NewStorage
                          "httpd://paulgraham.com" "a/b" Demo.w0)))
       InvalidInput.
Proof.
  destruct (handler_names_are_not_empty "paulgraham.com/a/b//"
              "httpd://paulgraham.com" "a/b" eq_refl) as (_ & _ & He & Hg).
  split; [exact He|apply Hg].
Defined.

(** X13: the URL asked of the origin is the scheme followed by the rest
    of the parameter without the "/" at its end; for a parameter that
    starts with "https://" it is the parameter itself less the "/" at its
    end. *)
Theorem target_rejoins_to_trimmed_url :
  (forall url h p,
      target url = Some (h, p) ->
      h +:+ "/" +:+ p
      = fst (scheme_split url)
        +:+ strings.TrimRight (snd (scheme_split url)) "/")
  /\ (forall rest h p,
         target ("https://" +:+ rest) = Some (h, p) ->
         h +:+ "/" +:+ p = "https://" +:+ strings.TrimRight rest "/"
         /\ exists n,
              "https://" +:+ rest = (h +:+ "/" +:+ p) +:+ slashes n).
Proof.
  assert (Hgen : forall url h p,
             target url = Some (h, p) ->
             h +:+ "/" +:+ p
             = fst (scheme_split url)
               +:+ strings.TrimRight (snd (scheme_split url)) "/").
  { intros url h p Ht.
    destruct (target_Some url h p Ht) as (host & -> & _ & -> & _).
    apply append_assoc. }
  split; [exact Hgen|].
  intros rest h p Ht. pose proof (Hgen _ _ _ Ht) as Heq.
  rewrite scheme_split_https in Heq. cbn [fst snd] in Heq.
  split; [done|]. rewrite Heq.
  destruct (TrimRight_decomp rest) as (n & Hn). exists n.
  rewrite append_assoc. by rewrite <- Hn.
Qed.

Lemma target_rejoins_to_trimmed_url_witness :
  "https://paulgraham.com" +:+ "/" +:+ "index.html"
  = "https://" +:+ strings.TrimRight "paulgraham.com/index.html//" "/".
Proof.
  destruct target_rejoins_to_trimmed_url as [_ H].
  apply (H "paulgraham.com/index.html//" "https://paulgraham.com"
           "index.html" eq_refl).
Defined.

(** X14: lines 148 to 159 take a scheme off the front and nothing else.
    With "https://" in front, or failing that "http://", the prefix is
    that scheme and prefix and rest make the parameter again; with
    neither the prefix is "httpd://" and the rest is the whole
    parameter. *)
Theorem scheme_split_rejoins (url : string) :
  let '(prefix, rest) := scheme_split url in
  (prefix = "https://" /\ url = "https://" +:+ rest)
  \/ (prefix = "http://" /\ url = "http://" +:+ rest
      /\ strings.HasPrefix url "https://" = false)
  \/ (prefix = "httpd://" /\ rest = url
      /\ strings.HasPrefix url "https://" = false
      /\ strings.HasPrefix url "http://" = false).
Proof.
  destruct (scheme_split_cases url) as [[Hs Hu] | [(Hs & Hu & H1) | (Hs & H12)]];
    rewrite Hs; [by left|by right; left|by right; right].
Qed.

(** X15: with the allow-list of [NewStorage], a parameter that does not
    start with "https://paulgraham.com/" is answered 404 Not Found before
    any clock read or request, the storage untouched. *)
Theorem handler_serves_only_allowed_origin (E : Env) (s : Storage.t)
    (url : string) (w : World) :
  Storage.allowed s = Storage.allowed Storage.NewStorage ->
  strings.HasPrefix url "https://paulgraham.com/" = false ->
  handler E s url w = (s, NotFound, w).
Proof.
  intros Hall Hpre. unfold handler.
  destruct (target url) as [[h p]|] eqn:Ht; [|done].
  destruct (target_names_not_empty url h p Ht) as [Hh Hp].
  assert (Hout : h ∉ Storage.allowed s).
  { rewrite Hall. cbn. rewrite elem_of_singleton. intros ->.
    destruct (target_Some url _ p Ht) as (host & Hhost & _ & Htrim & _).
    destruct (scheme_split_cases url)
      as [[Hs Hu] | [(Hs & _) | (Hs & _)]];
      rewrite Hs in Hhost; cbv [fst String.append] in Hhost;
      [|discriminate..].
    injection Hhost as <-.
    destruct (TrimRight_decomp (snd (scheme_split url))) as (n & Hn).
    rewrite Htrim in Hn. rewrite Hu, Hn in Hpre.
    rewrite !append_assoc in Hpre.
    change ("https://" +:+ "paulgraham.com" +:+ "/" +:+ p +:+ slashes n)
      with ("https://paulgraham.com/" +:+ (p +:+ slashes n)) in Hpre.
    unfold strings.HasPrefix in Hpre. by rewrite prefix_app in Hpre. }
  unfold bind. by rewrite Get_rejected.
Qed.

Lemma handler_serves_only_allowed_origin_witness :
  handler Demo.E_found Storage.NewStorage "paulgraham.com/index.html" Demo.w0
  = (Storage.NewStorage, NotFound, Demo.w0).
Proof.
  apply handler_serves_only_allowed_origin; reflexivity.
Defined.

(** X16: whatever makes the handler answer 404 Not Found, a parameter
    that does not parse or any error of [Storage.Get], the storage is the
    one the request found. *)
Theorem handler_NotFound_keeps_storage (E : Env) (s : Storage.t)
    (url : string) (w : World) :
  snd (fst (handler E s url w)) = NotFound ->
  fst (fst (handler E s url w)) = s.
Proof.
  intros Hnf. destruct (handler_cases E s url w)
    as [[_ Hs] | (h & p & obj & _ & _ & Hserve)]; [done|].
  rewrite Hserve in Hnf. discriminate.
Qed.

(** The origin is down while the entry of [Demo.warm] is stale. *)
Lemma handler_NotFound_keeps_storage_witness :
  fst (fst (handler Demo.E_down Demo.warm "https://paulgraham.com/index.html"
              {| ticks := 3; requests := [] |})) = Demo.warm.
Proof.
  apply handler_NotFound_keeps_storage.
  unfold handler.
  change (target "https://paulgraham.com/index.html")
    with (Some (Demo.host, Demo.page)).
  unfold bind. rewrite Get_fetch by (apply warm_stale; reflexivity).
  reflexivity.
Defined.

(** X17: when the handler serves content, [Storage.Get] returned an
    object without error for the names parsed from the parameter, and the
    reply is made of that object: its content type and digest as headers,
    its update time as modification time, its bytes as body.  On a cache
    whose objects carry the digest of their content, the ETag header is
    the hexadecimal MD5 of the body served. *)
Theorem handler_serves_what_Get_returned (E : Env) (s s' : Storage.t)
    (url : string) (w w' : World) (headers : list (string * string))
    (name : string) (modtime : time.Time) (content : list byte) :
  cache_tagged (Storage.cache s) ->
  handler E s url w = (s', ServeContent headers name modtime content, w') ->
  exists h obj,
    target url = Some (h, name)
    /\ Storage.Get E s h name w = (s', (obj, None), w')
    /\ content = Content obj /\ modtime = UpdateTime obj
    /\ headers
       = [ ("Content-Type", ContentType obj);
           ("ETag", Hex.EncodeToString (MD5.Sum content));
           ("Access-Control-Allow-Origin", "*");
           ("Access-Control-Allow-Methods", "GET, OPTIONS") ].
Proof.
  intros Hinv Hh.
  destruct (handler_cases E s url w)
    as [[Hnf _] | (h & p & obj & Ht & HG & Hserve)].
  { rewrite Hh in Hnf. discriminate. }
  rewrite Hh in HG, Hserve. cbn [fst snd] in HG, Hserve.
  injection Hserve as -> -> -> ->.
  exists h, obj. split; [done|]. split; [done|]. split; [done|].
  split; [done|].
  destruct (Get_tagged E s h p w Hinv) as [_ Htag].
  rewrite HG in Htag. cbn [fst snd] in Htag. by rewrite <- Htag.
Qed.

Lemma handler_serves_what_Get_returned_witness :
  exists h obj,
    target "https://paulgraham.com/index.html/" = Some (h, "index.html")
    /\ Storage.Get Demo.E_found Storage.NewStorage h "index.html" Demo.w0
       = (Demo.warm, (obj, None), {| ticks := 2;
            requests := ["https://paulgraham.com/index.html"] |})
    /\ bytes_of_string "hello" = Content obj /\ 0%Z = UpdateTime obj
    /\ [ ("Content-Type", "text/html");
         ("ETag", "5d41402abc4b2a76b9719d911017c592");
         ("Access-Control-Allow-Origin", "*");
         ("Access-Control-Allow-Methods", "GET, OPTIONS") ]
       = [ ("Content-Type", ContentType obj);
           ("ETag", Hex.EncodeToString (MD5.Sum (bytes_of_string "hello")));
           ("Access-Control-Allow-Origin", "*");
           ("Access-Control-Allow-Methods", "GET, OPTIONS") ].
Proof.
  apply (handler_serves_what_Get_returned Demo.E_found Storage.NewStorage
           Demo.warm "https://paulgraham.com/index.html/" Demo.w0
           {| ticks := 2; requests := ["https://paulgraham.com/index.html"] |}
           [ ("Content-Type", "text/html");
             ("ETag", "5d41402abc4b2a76b9719d911017c592");
             ("Access-Control-Allow-Origin", "*");
             ("Access-Control-Allow-Methods", "GET, OPTIONS") ]
           "index.html" 0%Z (bytes_of_string "hello")).
  - apply NewStorage_tagged.
  - vm_compute. reflexivity.
Defined.

(** ** Entries are never removed *)

(** X18: no call removes an entry.  A key the cache holds is still held
    after any sequence of calls, whether they hit, fetch or fail; only
    the object under it may have been replaced. *)
Theorem GetAll_never_removes_an_entry (E : Env)
    (reqs : list (string * string)) :
  forall (s : Storage.t) (w : World) (h p : string) (o : Object),
    Cache.Get (Storage.cache s) h p = (o, true) ->
    exists o',
      Cache.Get (Storage.cache (fst (fst (Storage.GetAll E s reqs w)))) h p
      = (o', true).
Proof.
  induction reqs as [|[h1 p1] rest IH]; intros s w h p o Hget; [by exists o|].
  rewrite GetAll_cons.
  destruct (Get_keeps_keys E s h1 p1 w h p o Hget) as (o1 & Ho1).
  destruct (Storage.Get E s h1 p1 w) as [r w1]. cbn [fst snd] in *.
  destruct (IH (fst r) w1 h p o1 Ho1) as (o2 & Ho2).
  destruct (Storage.GetAll E (fst r) rest w1) as [rs w2].
  by exists o2.
Qed.

(** The origin is down and the entry of [Demo.warm] is stale: two calls
    fail, and the entry is still there. *)
Lemma GetAll_never_removes_an_entry_witness :
  exists o',
    Cache.Get
      (Storage.cache
         (fst (fst (Storage.GetAll Demo.E_down Demo.warm
                      [(Demo.host, Demo.page); (Demo.host, "about.html")]
                      {| ticks := 3; requests := [] |}))))
      Demo.host Demo.page
    = (o', true).
Proof.
  apply (GetAll_never_removes_an_entry Demo.E_down
           [(Demo.host, Demo.page); (Demo.host, "about.html")] Demo.warm
           {| ticks := 3; requests := [] |} Demo.host Demo.page
           (fst (Cache.Get (Storage.cache Demo.warm) Demo.host Demo.page))).
  vm_compute. reflexivity.
Defined.
